(** * cowboys-ipsum: the generative grammar engine of [src/main.ts]

    A shallow embedding of the [LoremIpsum] class: the Template Store is a
    JSON value read by dynamic property lookup, [Math.random] is a tape of
    draws, the two repeat-avoidance trackers are an explicit store, and
    JavaScript exceptions are an outcome of their own. *)

From Stdlib Require Import QArith Qround Strings.String Strings.Ascii DecimalString.
From stdpp Require Import gmap list.

Local Open Scope nat_scope.
Set Warnings "-register-all".

(** ** JavaScript strings

    A string is its sequence of UTF-16 code units, so [length] is the
    [.length] of the source. *)

Abbreviation jsstring := (list N).

Definition js (s : string) : jsstring :=
  N_of_ascii <$> list_ascii_of_string s.

(** The double quote, written by its code unit. *)
Definition dq : jsstring := [34%N].

Definition natToString (n : nat) : jsstring :=
  js (NilZero.string_of_uint (Nat.to_uint n)).

Definition intToString (z : Z) : jsstring :=
  js (NilZero.string_of_int (Z.to_int z)).

(** [Array.prototype.join] on elements already converted to strings. *)
Fixpoint joinWith (sep : jsstring) (l : list jsstring) : jsstring :=
  match l with
  | [] => []
  | [x] => x
  | x :: l' => x ++ sep ++ joinWith sep l'
  end.

(** [String.prototype.split] with a one-unit separator: every occurrence
    cuts, so adjacent separators give empty pieces. *)
Fixpoint splitOn (sep : N) (s : jsstring) : list jsstring :=
  match s with
  | [] => [[]]
  | c :: s' =>
      if (c =? sep)%N then [] :: splitOn sep s'
      else match splitOn sep s' with
           | p :: ps => (c :: p) :: ps
           | [] => [[c]]
           end
  end.

(** The class [\s] of a JavaScript regular expression. *)
Definition isWs (c : N) : bool :=
  ((9 <=? c) && (c <=? 13) || (c =? 32) || (c =? 160) || (c =? 5760)
   || (8192 <=? c) && (c <=? 8202) || (c =? 8232) || (c =? 8233)
   || (c =? 8239) || (c =? 8287) || (c =? 12288) || (c =? 65279))%N.

(** [str.split(/\s+/)]: the text is cut at every maximal run of white
    space; a run at either end leaves an empty piece there, and a text
    without white space is returned whole. [prevWs] tells that the
    previous unit belonged to a run. *)
Fixpoint splitWsFrom (prevWs : bool) (s : jsstring) : list jsstring :=
  match s with
  | [] => [[]]
  | c :: s' =>
      if isWs c then
        if prevWs then splitWsFrom true s' else [] :: splitWsFrom true s'
      else match splitWsFrom false s' with
           | p :: ps => (c :: p) :: ps
           | [] => [[c]]
           end
  end.

Definition splitWs (s : jsstring) : list jsstring := splitWsFrom false s.

(** The class [[A-Za-z]]. *)
Definition isAsciiLetter (c : N) : bool :=
  ((65 <=? c) && (c <=? 90) || (97 <=? c) && (c <=? 122))%N.

(** [str.replace] with the pattern [/[^A-Za-z]/g]: each unit outside the
    class is replaced by the empty string. *)
Fixpoint stripNonLetters (s : jsstring) : jsstring :=
  match s with
  | [] => []
  | c :: s' => if isAsciiLetter c then c :: stripNonLetters s'
               else [] ++ stripNonLetters s'
  end.

(** ** Values of the Template Store

    [data.json] is read with [(data as any)[key]], so it is kept as an
    untyped JSON value; [JUndef] is what a lookup of an absent property
    gives. An object lists its own properties in insertion order, with
    pairwise distinct keys that are neither array indices nor [__proto__].
    A lookup that does
    not find an own property goes on in the prototype of the value: the
    members found there are functions and accessors, which are not values
    of the model, so such a lookup is [Beyond]. *)

Inductive json :=
| JUndef
| JNull
| JBool (b : bool)
| JNum (q : Q)
| JStr (s : jsstring)
| JArr (l : list json)
| JObj (fields : list (jsstring * json)).

Inductive exn := TypeError | RangeError | SyntaxError.

(** What a piece of code does: it returns, it throws, it asks for a draw
    that the tape no longer has ([Starved]), or it leaves the part of
    JavaScript that is modelled ([Beyond]: coercions of composite values
    to numbers, identity of arrays, members of the built-in prototypes). *)
Inductive outcome (A : Type) :=
| Ret (a : A)
| Throw (e : exn)
| Starved
| Beyond.

Arguments Ret {A} a.
Arguments Throw {A} e.
Arguments Starved {A}.
Arguments Beyond {A}.

Definition obind {A B} (c : outcome A) (k : A -> outcome B) : outcome B :=
  match c with
  | Ret a => k a
  | Throw e => Throw e
  | Starved => Starved
  | Beyond => Beyond
  end.

Declare Scope js_scope.
Delimit Scope js_scope with js.
Notation "x <~ c ; k" := (obind c (fun x => k))
  (at level 20, c at level 100, k at level 200, only parsing) : js_scope.
Local Open Scope js_scope.

Definition truthy (v : json) : bool :=
  match v with
  | JUndef | JNull => false
  | JBool b => b
  | JNum q => negb (Qeq_bool q 0)
  | JStr s => negb (bool_decide (s = []))
  | JArr _ | JObj _ => true
  end.

(** The test of the [??] operator. *)
Definition nullish (v : json) : bool :=
  match v with
  | JUndef | JNull => true
  | _ => false
  end.

Fixpoint assoc (k : jsstring) (fields : list (jsstring * json)) : option json :=
  match fields with
  | [] => None
  | (k', v) :: fields' => if bool_decide (k = k') then Some v else assoc k fields'
  end.

(** The names of the members that an object of the store inherits from
    [Object.prototype]. *)
Definition objectPrototype : list jsstring :=
  js <$> ["constructor"; "hasOwnProperty"; "isPrototypeOf"; "propertyIsEnumerable";
          "toLocaleString"; "toString"; "valueOf"; "__proto__";
          "__defineGetter__"; "__defineSetter__";
          "__lookupGetter__"; "__lookupSetter__"]%string.

Definition inherited (k : jsstring) : bool := bool_decide (k ∈ objectPrototype).

(** The shape of the names of the members of the built-in prototypes:
    letters, digits, [_] and [$]. The indices and the [length] of a string
    or of an array have that shape as well. *)
Definition isMemberName (k : jsstring) : bool :=
  negb (bool_decide (k = []))
  && forallb (fun c => isAsciiLetter c || (48 <=? c) && (c <=? 57)
                       || (c =? 95) || (c =? 36))%N k.

(** [v[k]] and [v.k] for a string key. On an object an own property is
    returned, a name of [Object.prototype] that is not an own property is
    [Beyond], and any other name gives [undefined]. A boolean, a number, a
    string or an array has its indices and its [length] and inherits from a
    prototype whose members depend on the engine: every key of the shape of
    a member name is [Beyond] there, and any other key gives [undefined]. *)
Definition jget (v : json) (k : jsstring) : outcome json :=
  match v with
  | JUndef | JNull => Throw TypeError
  | JBool _ | JNum _ | JStr _ | JArr _ =>
      if isMemberName k then Beyond else Ret JUndef
  | JObj fields =>
      match assoc k fields with
      | Some x => Ret x
      | None => if inherited k then Beyond else Ret JUndef
      end
  end.

(** [v.length] where the source then computes with it. *)
Definition jlength (v : json) : outcome nat :=
  match v with
  | JUndef | JNull => Throw TypeError
  | JStr s => Ret (length s)
  | JArr l => Ret (length l)
  | JBool _ | JNum _ | JObj _ => Beyond
  end.

(** [v[i]] for a number [i] that is a natural number. *)
Definition jindex (v : json) (i : nat) : outcome json :=
  match v with
  | JUndef | JNull => Throw TypeError
  | JBool _ | JNum _ => Ret JUndef
  | JStr s => Ret (match s !! i with Some c => JStr [c] | None => JUndef end)
  | JArr l => Ret (default JUndef (l !! i))
  | JObj fields => Ret (default JUndef (assoc (natToString i) fields))
  end.

(** [Object.keys(v)]. *)
Definition objectKeys (v : json) : outcome (list jsstring) :=
  match v with
  | JUndef | JNull => Throw TypeError
  | JBool _ | JNum _ => Ret []
  | JStr s => Ret (natToString <$> seq 0 (length s))
  | JArr l => Ret (natToString <$> seq 0 (length l))
  | JObj fields => Ret (fields.*1)
  end.

(** ** The host

    Three services of the JavaScript runtime are taken as given: the upper
    case mapping of Unicode, the printing of a number that is not a small
    integer, and the regular expression engine behind
    [str.replace(new RegExp(pattern, "g"), replacement)]. *)
Class Host := {
  toUpperCase : jsstring -> jsstring;
  fracToString : Q -> jsstring;
  regexReplaceAll : jsstring -> jsstring -> jsstring -> outcome jsstring
}.

(** A JavaScript number as [Number(...)] returns it. *)
Inductive number :=
| NaN
| Inf (negative : bool)
| Fin (q : Q).

Definition isInteger (q : Q) : bool := Qeq_bool q (inject_Z (Qfloor q)).

Section WithHost.
Context {H : Host}.

(** [Number::toString]: integers below [10^21] print in decimal. *)
Definition NumberToString (n : number) : jsstring :=
  match n with
  | NaN => js "NaN"
  | Inf false => js "Infinity"
  | Inf true => js "-Infinity"
  | Fin q =>
      if isInteger q && (Z.abs (Qfloor q) <? 10 ^ 21)%Z
      then intToString (Qfloor q)
      else fracToString q
  end.

(** [ToString]; inside an array [null] and [undefined] print as nothing. *)
Fixpoint ToString (v : json) : jsstring :=
  match v with
  | JUndef => js "undefined"
  | JNull => js "null"
  | JBool true => js "true"
  | JBool false => js "false"
  | JNum q => NumberToString (Fin q)
  | JStr s => s
  | JArr l =>
      joinWith (js ",")
        ((fix each (l : list json) : list jsstring :=
            match l with
            | [] => []
            | x :: l' => (if nullish x then [] else ToString x) :: each l'
            end) l)
  | JObj _ => js "[object Object]"
  end.

(** [arr.join(sep)] on an array of values. *)
Definition joinValues (sep : jsstring) (l : list json) : jsstring :=
  joinWith sep ((fun x => if nullish x then [] else ToString x) <$> l).

(** [v[k]] where the key is itself a value. *)
Definition jgetv (v : json) (k : json) : outcome json :=
  jget v (ToString k).

Definition isString (v : json) : bool :=
  match v with JStr _ => true | _ => false end.

Definition isNumeric (v : json) : bool :=
  match v with JUndef | JNull | JBool _ | JNum _ => true | _ => false end.

(** [a + b]: as soon as one side is a string, or prints as one, the two
    sides are concatenated. *)
Definition jsAdd (a b : json) : outcome json :=
  if isNumeric a && isNumeric b then Beyond
  else Ret (JStr (ToString a ++ ToString b)).

(** [a !== b] on primitive values. *)
Definition strictNe (a b : json) : outcome bool :=
  match a, b with
  | JArr _, JArr _ | JObj _, JObj _ => Beyond
  | JUndef, JUndef | JNull, JNull => Ret false
  | JBool x, JBool y => Ret (negb (Bool.eqb x y))
  | JNum x, JNum y => Ret (negb (Qeq_bool x y))
  | JStr x, JStr y => Ret (negb (bool_decide (x = y)))
  | _, _ => Ret true
  end.

(** [str.charAt(0).toUpperCase() + str.slice(1)]. *)
Definition capitalize (str : jsstring) : jsstring :=
  toUpperCase (take 1 str) ++ drop 1 str.

End WithHost.

(** ** Randomness

    [Math.random()] returns a number of [[0, 1)]. A draw is kept as the
    fraction [num / (num + gap)], which ranges over exactly the rationals of
    that interval; products and comparisons with it are exact, and so are
    the constants [1 / 6] and [0.5] of the source. *)

Record rnd := { rnd_num : N; rnd_gap : positive }.

Definition rndQ (r : rnd) : Q :=
  Z.of_N (rnd_num r) # Z.to_pos (Z.of_N (rnd_num r) + Z.pos (rnd_gap r)).

(** [Math.floor(r * n)]. *)
Definition floorMul (r : rnd) (n : nat) : nat :=
  Z.to_nat ((Z.of_N (rnd_num r) * Z.of_nat n)
            / (Z.of_N (rnd_num r) + Z.pos (rnd_gap r))).

(** [v >= r] for a value of the store: [undefined] converts to [NaN], and
    no comparison with [NaN] holds. *)
Definition geRandom (v : json) (r : rnd) : outcome bool :=
  match v with
  | JNum q => Ret (Qle_bool (rndQ r) q)
  | JUndef => Ret false
  | JNull | JBool false => Ret (Qle_bool (rndQ r) 0)
  | JBool true => Ret true
  | JStr _ | JArr _ | JObj _ => Beyond
  end.

(** ** The state of a [LoremIpsum] object and its computations *)

Record store := {
  usedWords : gmap jsstring (list nat);
  usedDictionary : gset jsstring
}.

(** [this.usedWords.get(type) ?? []]. *)
Definition memory (s : store) (type : jsstring) : list nat :=
  default [] (usedWords s !! type).

(** [used.push(index); if (used.length > 4) used.shift();]. *)
Definition remember (used : list nat) (index : nat) : list nat :=
  let pushed := used ++ [index] in
  if 4 <? length pushed then tail pushed else pushed.

(** Both trackers after [clear()]. *)
Definition cleared : store := {| usedWords := ∅; usedDictionary := ∅ |}.

Definition M (A : Type) : Type :=
  store -> list rnd -> outcome (A * store * list rnd).

Definition ret {A} (a : A) : M A := fun s t => Ret (a, s, t).

Definition bind {A B} (c : M A) (k : A -> M B) : M B :=
  fun s t =>
    match c s t with
    | Ret (a, s', t') => k a s' t'
    | Throw e => Throw e
    | Starved => Starved
    | Beyond => Beyond
    end.

Definition lift {A} (c : outcome A) : M A :=
  fun s t => match c with
             | Ret a => Ret (a, s, t)
             | Throw e => Throw e
             | Starved => Starved
             | Beyond => Beyond
             end.

Definition throw {A} (e : exn) : M A := fun _ _ => Throw e.

Definition beyond {A} : M A := fun _ _ => Beyond.

(** One call of [Math.random()]. *)
Definition random : M rnd :=
  fun s t => match t with
             | [] => Starved
             | r :: t' => Ret (r, s, t')
             end.

Notation "x <- c ; k" := (bind c (fun x => k))
  (at level 20, c at level 100, k at level 200, only parsing) : js_scope.

Fixpoint mapM {A B} (f : A -> M B) (l : list A) : M (list B) :=
  match l with
  | [] => ret []
  | x :: l' => y <- f x ; ys <- mapM f l' ; ret (y :: ys)
  end.

(** [n] calls in a row, as [Array.from({ length: n }, f)] makes them. *)
Fixpoint repeatM {A} (n : nat) (f : M A) : M (list A) :=
  match n with
  | 0 => ret []
  | S n' => y <- f ; ys <- repeatM n' f ; ret (y :: ys)
  end.

(** [ToLength] of the [length] property: the number is truncated and
    clamped to [[0, 2^53 - 1]]; below 0 the floor is clamped as the
    truncation is. *)
Definition ToLength (n : number) : Z :=
  match n with
  | NaN => 0
  | Inf true => 0
  | Inf false => 2 ^ 53 - 1
  | Fin q => Z.min (Z.max (Qfloor q) 0) (2 ^ 53 - 1)
  end.

(** [Array.from({ length: n }, f)]: an array cannot have [2^32] elements
    or more. *)
Definition arrayFrom {A} (n : number) (f : M A) : M (list A) :=
  if (2 ^ 32 <=? ToLength n)%Z then throw RangeError
  else repeatM (Z.to_nat (ToLength n)) f.

(** The truthiness of a number and [Number(value) || 1]. *)
Definition truthyNumber (n : number) : bool :=
  match n with
  | NaN => false
  | Inf _ => true
  | Fin q => negb (Qeq_bool q 0)
  end.

Definition orOne (n : number) : number :=
  if truthyNumber n then n else Fin 1.

Inductive IpsumType := Paragraphs | Sentences | Words | Lists.

Record Settings := {
  url : jsstring;
  nbr : number;
  type : IpsumType
}.

Record PartialResult := {
  p_type : json;
  p_text : json;
  p_gender : json;
  p_number : json
}.

(** The agreement context handed to a section. *)
Record Preset := {
  gender : json;
  number_ : json
}.

(** The default parameter [preset = {}]. *)
Definition noPreset : Preset := {| gender := JUndef; number_ := JUndef |}.

(** What a spread [...v] and a [for ... of] take from an array. *)
Definition iterate (v : json) : outcome (list json) :=
  match v with
  | JArr l => Ret l
  | JStr _ => Beyond
  | _ => Throw TypeError
  end.

Definition path (v : json) (keys : list jsstring) : outcome json :=
  foldl (fun acc k => x <~ acc ; jget x k) (Ret v) keys.

(** The pool of single words that the constructor collects. *)
Definition wordsArrOf (data : json) : outcome (list json) :=
  let values (keys : list string) := x <~ path data (js <$> keys) ; iterate x in
  a <~ values ["times"; "m"; "single"; "item"; "values"]%string ;
  b <~ values ["places"; "m"; "single"; "item"; "values"]%string ;
  c <~ values ["places"; "f"; "single"; "item"; "values"]%string ;
  d <~ values ["persons"; "m"; "single"; "item"; "values"]%string ;
  e <~ values ["persons"; "f"; "single"; "item"; "values"]%string ;
  f <~ values ["roles"; "m"; "single"; "item"; "values"]%string ;
  g <~ values ["roles"; "f"; "single"; "item"; "values"]%string ;
  h <~ values ["roles"; "m"; "single"; "specialisation"; "values"]%string ;
  i <~ values ["roles"; "f"; "single"; "specialisation"; "values"]%string ;
  Ret (a ++ b ++ c ++ d ++ e ++ f ++ g ++ h ++ i).

(** ** The generator *)

Section Engine.
Context {H : Host}.
Variable data : json.
Variable ligatures : list (jsstring * jsstring).
Variable wordsArr : list json.

(** [random(min, max)]. *)
Definition randomBetween (min max : nat) : M nat :=
  r <- random ;
  ret (floorMul r (max - min + 1) + min).

(** [randomFromArray(arr)]: [arr[Math.floor(Math.random() * arr.length)]]. *)
Definition randomFromArray (arr : json) : M json :=
  r <- random ;
  len <- lift (jlength arr) ;
  lift (jindex arr (floorMul r len)).

(** [randomWordFromPool()]. *)
Definition randomWordFromPool : M json :=
  item <- randomFromArray (JArr wordsArr) ;
  match item with
  | JStr s => randomFromArray (JArr (JStr <$> splitOn 32 s))
  | _ => throw TypeError
  end.

(** [getRandomNoRepeat(arr)]. The set only ever receives strings, so a
    value that is not a string is not in it. *)
Definition getRandomNoRepeat (arr : json) : M json :=
  word <- randomFromArray arr ;
  match word with
  | JStr w =>
      fun s t =>
        if negb (bool_decide (w ∈ usedDictionary s)) && (3 <? length w)
        then Ret (word,
                  {| usedWords := usedWords s;
                     usedDictionary := usedDictionary s ∪ {[ w ]} |}, t)
        else randomFromArray arr s t
  | JUndef | JNull => throw TypeError
  | JBool _ | JNum _ => randomFromArray arr
  | JArr _ | JObj _ => beyond
  end.

(** [getRandomWord(type)]. The recursion of the source has no bound; here
    each attempt takes one draw from the tape, and a draw that rejects every
    attempt is [Starved] on every tape (an engine ends such a recursion when
    its stack is exhausted). *)
Fixpoint getRandomWord (type : jsstring) (s : store) (t : list rnd)
  {struct t} : outcome (json * store * list rnd) :=
  list <~ jget data type ;
  match t with
  | [] => Starved
  | r :: t' =>
      len <~ jlength list ;
      let index := floorMul r len in
      let used := memory s type in
      if negb (bool_decide (index ∈ used)) then
        word <~ jindex list index ;
        Ret (word,
             {| usedWords := <[type := remember used index]> (usedWords s);
                usedDictionary := usedDictionary s |}, t')
      else getRandomWord type s t'
  end.

(** [mergePartials(arr, type, typeObj)]. *)
Definition mergeStep (typeObj : json) (base : PartialResult) (p : PartialResult)
  : M PartialResult :=
  differs <- lift (strictNe (p_gender p) (p_gender base)) ;
  sepPool <- lift (jget typeObj (js "sep")) ;
  sep <- randomFromArray sepPool ;
  tail_ <- lift (jsAdd sep (p_text p)) ;
  text <- lift (jsAdd (p_text base) tail_) ;
  ret {| p_type := p_type base;
         p_text := text;
         p_gender := if differs then JStr (js "m") else p_gender base;
         p_number := p_number base |}.

Fixpoint mergeLoop (typeObj : json) (base : PartialResult)
  (rest : list PartialResult) : M PartialResult :=
  match rest with
  | [] => ret base
  | p :: rest' => base' <- mergeStep typeObj base p ; mergeLoop typeObj base' rest'
  end.

Definition mergePartials (arr : list PartialResult) (type : jsstring)
  (typeObj : json) : M PartialResult :=
  let base0 := match arr with
               | p :: _ => p
               | [] => {| p_type := JUndef; p_text := JUndef;
                          p_gender := JUndef; p_number := JUndef |}
               end in
  base <- mergeLoop typeObj base0 (tail arr) ;
  ret {| p_type := JStr type;
         p_text := p_text base;
         p_gender := p_gender base;
         p_number := JStr (js "plural") |}.

(** One sub-component of a partial: the body of [typeObj.structure.map]. *)
Definition partialPiece (obj : json) (category : json) : M json :=
  sub <- lift (jgetv obj category) ;
  required <- lift (jget sub (js "required")) ;
  r <- random ;
  wanted <- lift (geRandom required r) ;
  if wanted : bool then
    values <- lift (jget sub (js "values")) ;
    getRandomNoRepeat values
  else
    dflt <- lift (jget sub (js "default")) ;
    ret (if nullish dflt then JStr [] else dflt).

(** [getPartial(type, preset)]. *)
Definition getPartial (type : json) (preset : Preset) : M PartialResult :=
  gender <- (if nullish (gender preset)
             then r <- random ;
                  ret (JStr (if Qle_bool (rndQ r) (1 # 2) then js "f" else js "m"))
             else ret (gender preset)) ;
  typeObj <- lift (jgetv data type) ;
  byGender <- lift (jgetv typeObj gender) ;
  numbers <- lift (objectKeys byGender) ;
  number <- (if nullish (number_ preset)
             then r <- random ;
                  ret (match numbers !! floorMul r (length numbers) with
                       | Some k => JStr k
                       | None => JUndef
                       end)
             else ret (number_ preset)) ;
  obj <- lift (jgetv byGender number) ;
  structure <- lift (jget typeObj (js "structure")) ;
  categories <- lift (match structure with
                      | JArr l => Ret l
                      | _ => Throw TypeError
                      end) ;
  pieces <- mapM (partialPiece obj) categories ;
  ret {| p_type := type;
         p_text := JStr (joinValues (js " ") (filter (fun v => truthy v = true) pieces));
         p_gender := gender;
         p_number := number |}.

(** [getSection(originalType, preset)]. *)
Definition getSection (originalType : jsstring) (preset : Preset)
  : M PartialResult :=
  typeObj <- lift (jget data originalType) ;
  options <- lift (jget typeObj (js "options")) ;
  if truthy options then
    selected <- randomFromArray options ;
    match selected with
    | JStr _ => getPartial selected preset
    | JArr ts =>
        partials <- mapM (fun t => getPartial t preset) ts ;
        mergePartials partials originalType typeObj
    | _ => throw TypeError
    end
  else getPartial (JStr originalType) preset.

(** The body of the [for ... of] loop of [generateSentence]: the parts
    pushed so far and the protagonist are threaded through the tokens. *)
Definition plainToken (token : jsstring) (parts : list json) : M (list json) :=
  category <- lift (jget data token) ;
  if truthy category then
    word <- getRandomWord token ;
    ret (parts ++ [word])
  else ret (parts ++ [JStr token]).

Fixpoint sentenceLoop (tokens : list json) (parts : list json)
  (protagonist : Preset) : M (list json) :=
  match tokens with
  | [] => ret parts
  | JStr token :: rest =>
      match token with
      | 42%N :: name =>
          r <- random ;
          if Qle_bool (1 # 6) (rndQ r) then sentenceLoop rest parts protagonist
          else parts' <- plainToken name parts ;
               sentenceLoop rest parts' protagonist
      | 63%N :: name =>
          section <- getSection name protagonist ;
          let protagonist' :=
            if bool_decide (name = js "protagonists")
            then {| gender := p_gender section; number_ := p_number section |}
            else protagonist in
          sentenceLoop rest (parts ++ [p_text section]) protagonist'
      | _ =>
          parts' <- plainToken token parts ;
          sentenceLoop rest parts' protagonist
      end
  | _ :: _ => throw TypeError
  end.

(** [generateSentence()]. *)
Definition generateSentence : M jsstring :=
  structures <- lift (jget data (js "structures")) ;
  structure <- randomFromArray structures ;
  tokens <- lift (iterate structure) ;
  parts <- sentenceLoop tokens [] {| gender := JStr []; number_ := JStr [] |} ;
  ret (capitalize (joinValues (js " ") parts)).

(** [generateParagraph()]. *)
Definition generateParagraph : M jsstring :=
  sentencesNbr <- randomBetween 2 8 ;
  sentences <- repeatM sentencesNbr generateSentence ;
  ret (js "<p>" ++ joinWith (js " ") sentences ++ js "</p>").

(** [getLoremIpsum(type)]. *)
Definition getLoremIpsum (type : IpsumType) : M jsstring :=
  match type with
  | Sentences => s <- generateSentence ; ret (s ++ js " ")
  | Words =>
      w <- randomWordFromPool ;
      v <- lift (jsAdd w (JStr (js " "))) ;
      ret (ToString v)
  | Lists => s <- generateSentence ; ret (js "<li>" ++ s ++ js "</li>")
  | Paragraphs => generateParagraph
  end.

(** [fixLigatures(str)]. *)
Definition fixLigatures (str : jsstring) : outcome jsstring :=
  foldl (fun acc rule => a <~ acc ; regexReplaceAll rule.1 rule.2 a)
        (Ret str) ligatures.

(** [updateResume(text)]: the line written into the footer. *)
Definition updateResume (settings : Settings) (text : jsstring) : jsstring :=
  let n := NumberToString (nbr settings) in
  let translations (t : IpsumType) :=
    match t with
    | Paragraphs => n ++ js " paragraphes"
    | Sentences => n ++ js " phrases"
    | Words => n ++ js " mots"
    | Lists => js "Une liste " ++ [224%N] ++ js " " ++ n ++ js " points"
    end in
  let resume := translations (type settings) in
  let resume :=
    match type settings with
    | Words => resume
    | _ => resume ++ js ", " ++ natToString (length (splitWs text)) ++ js " mots"
    end in
  let resume :=
    resume ++ js ", " ++ natToString (length (stripNonLetters text))
      ++ js " caract" ++ [232%N] ++ js "res de " ++ [10%N]
      ++ js "      <a href=" ++ dq ++ url settings ++ dq
      ++ js ">Lee<em>psum</em></a> g" ++ [233%N] ++ js "n" ++ [233%N]
      ++ js "r" ++ [233%N] in
  js "<p><strong>" ++ resume ++ js "</strong></p>".

(** The first statement of [setup()]: both trackers are cleared and the
    units are generated and joined with the empty string. *)
Definition setupContent (settings : Settings) : M jsstring :=
  fun _ t =>
    (units <- arrayFrom (nbr settings) (getLoremIpsum (type settings)) ;
     ret (concat units)) cleared t.

(** [setup()]: what is written into the content element and into the
    footer. *)
Definition setup (settings : Settings) : M (jsstring * jsstring) :=
  content <- setupContent settings ;
  fixed <- lift (fixLigatures content) ;
  ret (js "<article class=" ++ dq ++ js "article" ++ dq ++ js ">"
         ++ fixed ++ js "</article>",
       updateResume settings fixed).

End Engine.

(** The constructor followed by [init()]: the count is [Number(value) || 1]
    and the type is the one selected. *)
Definition run {H : Host} (data : json) (ligatures : list (jsstring * jsstring))
  (value : number) (type : IpsumType) : M (jsstring * jsstring) :=
  wordsArr <- lift (wordsArrOf data) ;
  setup data ligatures wordsArr
    {| url := js "http://sidlipsum.smnarnold.com";
       nbr := orOne value; type := type |}.

(** ** Runs of category draws

    [reaches data s tr s'] follows one generation run from the store [s] to
    the store [s']: [tr] lists, in order, the category of every draw of
    [getRandomWord] that returned, with the index it recorded. Whatever else
    the run does in between leaves the recent-index memory as it is. *)

Inductive reaches (data : json) : store -> list (jsstring * nat) -> store -> Prop :=
| reaches_here (s : store) : reaches data s [] s
| reaches_draw (s s1 s2 : store) (t t1 : list rnd) (type : jsstring)
    (word : json) (index : nat) (tr : list (jsstring * nat)) :
    getRandomWord data type s t = Ret (word, s1, t1) ->
    last (memory s1 type) = Some index ->
    reaches data s1 tr s2 ->
    reaches data s ((type, index) :: tr) s2
| reaches_other (s s1 s2 : store) (tr : list (jsstring * nat)) :
    usedWords s1 = usedWords s ->
    reaches data s1 tr s2 ->
    reaches data s tr s2.

(** The indices that a run recorded for one category, in order. *)
Definition indicesOf (type : jsstring) (tr : list (jsstring * nat)) : list nat :=
  (filter (fun e => e.1 = type) tr).*2.

(** The last four entries of a history. *)
Definition lastFour (h : list nat) : list nat := drop (length h - 4) h.

(** ** A host and stores for evaluating the engine

    [asciiHost] is the runtime restricted to ASCII: upper case of the
    letters [a-z], and regular expressions that are plain words. *)

Definition asciiUpper (c : N) : N :=
  if ((97 <=? c) && (c <=? 122))%N then (c - 32)%N else c.

Definition isPlainUnit (c : N) : bool :=
  isAsciiLetter c || (c =? 32)%N || (128 <=? c)%N.

Fixpoint isPrefixOf (p s : jsstring) : bool :=
  match p, s with
  | [], _ => true
  | _ :: _, [] => false
  | a :: p', b :: s' => (a =? b)%N && isPrefixOf p' s'
  end.

(** Replacement of every occurrence of a word, left to right, without
    overlap; [skip] units of a match remain to be dropped. *)
Fixpoint replaceWord (pat rep : jsstring) (skip : nat) (s : jsstring) : jsstring :=
  match s with
  | [] => []
  | c :: s' =>
      match skip with
      | S k => replaceWord pat rep k s'
      | 0 => if isPrefixOf pat s
             then rep ++ replaceWord pat rep (length pat - 1) s'
             else c :: replaceWord pat rep 0 s'
      end
  end.

Definition plainReplaceAll (pat rep s : jsstring) : outcome jsstring :=
  if negb (bool_decide (pat = [])) && forallb isPlainUnit pat && forallb isPlainUnit rep
  then Ret (replaceWord pat rep 0 s)
  else Beyond.

Definition asciiHost : Host :=
  {| toUpperCase := fmap asciiUpper;
     fracToString := fun _ => [];
     regexReplaceAll := plainReplaceAll |}.

(** The draw [k / n] of [[0, 1)], for [k < n]. *)
Definition draw (k n : nat) : rnd :=
  {| rnd_num := N.of_nat k; rnd_gap := Pos.of_nat (n - k) |}.

(** A small Template Store of the shape that the constructor reads: five
    sentence structures, a pool of six hats, an empty pool, the four
    gendered types and a section with a single and a compound option. *)

Definition obj (fields : list (string * json)) : json :=
  JObj ((fun f => (js f.1, f.2)) <$> fields).

Definition words (l : list string) : json :=
  JArr ((fun w => JStr (js w)) <$> l).

(** One sub-component: always drawn, from the given values. *)
Definition slot (l : list string) : json :=
  obj [("required", JNum 1); ("values", words l)]%string.

Definition townStore : json :=
  obj [("structures",
        JArr [words ["howdy"; "hats"];
              words ["nobody"; "wears"; "boots"];
              JArr [JStr (js "caf" ++ [233%N]); JStr (js "noir")];
              words ["?protagonists"; "rides"];
              words ["*yonder"; "hats"]]);
       ("hats", words ["stetson"; "bowler"; "derby"; "gambler"; "sombrero"; "bonnet"]);
       ("boots", JArr []);
       ("times",
        obj [("structure", words ["item"]);
             ("m", obj [("single", obj [("item", slot ["high noon"])])])]);
       ("places",
        obj [("structure", words ["item"]);
             ("m", obj [("single", obj [("item", slot ["saloon"])])]);
             ("f", obj [("single", obj [("item", slot ["prairie"])])])]);
       ("persons",
        obj [("structure", words ["item"]);
             ("m", obj [("single", obj [("item", slot ["cowboy"])])]);
             ("f", obj [("single", obj [("item", slot ["cowgirl"])])])]);
       ("roles",
        obj [("structure", words ["item"; "specialisation"]);
             ("m", obj [("single", obj [("item", slot ["sheriff"]);
                                        ("specialisation", slot ["adjoint"])])]);
             ("f", obj [("single", obj [("item", slot ["bergere"]);
                                        ("specialisation", slot ["adjointe"])])])]);
       ("protagonists",
        obj [("options", JArr [JStr (js "persons"); words ["persons"; "roles"]]);
             ("sep", words [" et "])])]%string.

(** Its own properties. *)
Definition townFields : list (jsstring * json) :=
  match townStore with
  | JObj fields => fields
  | _ => []
  end.

(** The pool of single words that the constructor collects from it. *)
Definition townWords : list json :=
  JStr <$> [js "high noon"; js "saloon"; js "prairie"; js "cowboy"; js "cowgirl";
            js "sheriff"; js "bergere"; js "adjoint"; js "adjointe"].

(** What [arr[Math.floor(r * arr.length)]] picks in an array. *)
Definition pick (pool : list json) (r : rnd) : json :=
  default JUndef (pool !! floorMul r (length pool)).

(** ** The words of the specification

    The layout that the specification gives to the generated text: units
    wrapped in the markup of their mode, list items put side by side and
    the units of the other modes separated by one space. *)



(** The layout that [getLoremIpsum] gives to one unit. *)
Definition wrap (type : IpsumType) (u : jsstring) : jsstring :=
  match type with
  | Paragraphs => js "<p>" ++ u ++ js "</p>"
  | Sentences => u ++ js " "
  | Words => u ++ js " "
  | Lists => js "<li>" ++ u ++ js "</li>"
  end.

(** The white space tokens of a text: its maximal runs of units that are
    not white space. [prevWs] tells that no token is running. *)
Fixpoint tokensFrom (prevWs : bool) (s : jsstring) : nat :=
  match s with
  | [] => 0
  | c :: s' =>
      if isWs c then tokensFrom true s'
      else (if prevWs then 1 else 0) + tokensFrom false s'
  end.

Definition countTokens (s : jsstring) : nat := tokensFrom true s.

(** The alphabetic characters, for the units below U+0250: the letters of
    Basic Latin, of the Latin-1 Supplement and of Latin Extended-A and B. *)
Definition isLetter (c : N) : bool :=
  (isAsciiLetter c || (c =? 170) || (c =? 181) || (c =? 186)
   || (192 <=? c) && (c <=? 214) || (216 <=? c) && (c <=? 246)
   || (248 <=? c) && (c <=? 591))%N.

Definition countLetters (s : jsstring) : nat := length (filter (fun c => isLetter c = true) s).

Definition countAsciiLetters (s : jsstring) : nat :=
  length (filter (fun c => isAsciiLetter c = true) s).

Definition startsWithWs (s : jsstring) : bool :=
  match s with
  | c :: _ => isWs c
  | [] => false
  end.

Definition endsWithWs (s : jsstring) : bool :=
  match last s with
  | Some c => isWs c
  | None => false
  end.

Section MergeWords.
Context {H : Host}.

(** The text that a merge appends: before each text, the separator that the
    next draw picks. *)
Fixpoint appended (seps : list json) (texts : list json) (t : list rnd) : jsstring :=
  match texts, t with
  | x :: texts', r :: t' =>
      ToString (pick seps r) ++ ToString x ++ appended seps texts' t'
  | _, _ => []
  end.

End MergeWords.

Definition hasStringText (p : PartialResult) : Prop := exists x, p_text p = JStr x.

Definition hasStringGender (p : PartialResult) : Prop := exists g, p_gender p = JStr g.

(** One turn of the loop of [mergePartials] on the running gender. *)
Definition genderStep (g : json) (p : PartialResult) : json :=
  match strictNe (p_gender p) g with
  | Ret true => JStr (js "m")
  | _ => g
  end.

(** The store once a draw of [type] has recorded [index]. *)
Definition after (s : store) (type : jsstring) (index : nat) : store :=
  {| usedWords := <[type := remember (memory s type) index]> (usedWords s);
     usedDictionary := usedDictionary s |}.

(** What a computation gives, without the store and the tape it leaves. *)
Definition resultOf {A} (o : outcome (A * store * list rnd)) : outcome A :=
  match o with
  | Ret (a, _, _) => Ret a
  | Throw e => Throw e
  | Starved => Starved
  | Beyond => Beyond
  end.

(** Every entry of a history is absent from the four before it. *)
Definition freshRun (h : list nat) : Prop :=
  forall pre i post, h = pre ++ i :: post -> i ∉ lastFour pre.

(** The store once the value dictionary has received [w]. *)
Definition noted (s : store) (w : jsstring) : store :=
  {| usedWords := usedWords s; usedDictionary := usedDictionary s ∪ {[ w ]} |}.

(** A computation that relates the store it starts from to the store it
    returns with. *)
Definition keeps (P : store -> store -> Prop) {A} (c : M A) : Prop :=
  forall s t a s' t', c s t = Ret (a, s', t') -> P s s'.

(** The value dictionary only receives values. *)
Definition dictGrows (s s' : store) : Prop := usedDictionary s ⊆ usedDictionary s'.

(** One call that returns: the store and the tape before it, the value,
    and the store and the tape after it. *)
Definition returns {A} (c : M A) (s : store) (t : list rnd) (a : A)
  (s' : store) (t' : list rnd) : Prop :=
  c s t = Ret (a, s', t').

(** Calls made one after the other: each starts from the store and the
    tape that the one before left, and the values come in the order of the
    calls. *)
Inductive chain {A} (step : store -> list rnd -> A -> store -> list rnd -> Prop)
  : store -> list rnd -> list A -> store -> list rnd -> Prop :=
| chain_nil (s : store) (t : list rnd) : chain step s t [] s t
| chain_cons (s : store) (t : list rnd) (a : A) (s1 : store) (t1 : list rnd)
    (l : list A) (s2 : store) (t2 : list rnd) :
    step s t a s1 t1 -> chain step s1 t1 l s2 t2 -> chain step s t (a :: l) s2 t2.

(** What one unit of a mode is, inside its layout: a sentence and a list
    item are the text that one call of [generateSentence] returns, a word
    is the space-free string that one call of [randomWordFromPool] returns,
    and a paragraph is the sentences of 2 to 8 calls of [generateSentence]
    in a row, as many as the first draw tells, joined by single spaces. *)
Definition unitOf {H : Host} (data : json) (wordsArr : list json) (type : IpsumType)
  (s : store) (t : list rnd) (v : jsstring) (s' : store) (t' : list rnd) : Prop :=
  match type with
  | Sentences | Lists => returns (generateSentence data) s t v s' t'
  | Words => returns (randomWordFromPool wordsArr) s t (JStr v) s' t' /\ 32%N ∉ v
  | Paragraphs =>
      exists r t0 sentences,
        t = r :: t0
        /\ chain (returns (generateSentence data)) s t0 sentences s' t'
        /\ length sentences = floorMul r 7 + 2
        /\ 2 <= length sentences <= 8
        /\ v = joinWith (js " ") sentences
  end.

(** The state after the last unit of a text: inside a run of white space
    or not; [b] is the state before the text. *)
Definition endsInWs (b : bool) (s : jsstring) : bool :=
  match last s with
  | Some c => isWs c
  | None => b
  end.

Section SummaryWords.
Context {H : Host}.

(** The noun phrase of a mode. *)
Definition nounPhrase (settings : Settings) : jsstring :=
  match type settings with
  | Paragraphs => NumberToString (nbr settings) ++ js " paragraphes"
  | Sentences => NumberToString (nbr settings) ++ js " phrases"
  | Words => NumberToString (nbr settings) ++ js " mots"
  | Lists => js "Une liste " ++ [224%N] ++ js " " ++ NumberToString (nbr settings) ++ js " points"
  end.

End SummaryWords.

(** The attribution that ends the line. *)
Definition attribution (settings : Settings) : jsstring :=
  js " caract" ++ [232%N] ++ js "res de " ++ [10%N]
    ++ js "      <a href=" ++ dq ++ url settings ++ dq
    ++ js ">Lee<em>psum</em></a> g" ++ [233%N] ++ js "n" ++ [233%N]
    ++ js "r" ++ [233%N].

(** The protagonist that [generateSentence] starts from. *)
Definition blankPreset : Preset := {| gender := JStr []; number_ := JStr [] |}.

(** A store that a run can come to from another. *)
Definition reachable (data : json) (s s' : store) : Prop :=
  exists tr, reaches data s tr s'.

(** ** Inputs and observations of the examples *)

Definition omap {A B} (f : A -> B) (o : outcome A) : outcome B :=
  match o with
  | Ret a => Ret (f a)
  | Throw e => Throw e
  | Starved => Starved
  | Beyond => Beyond
  end.

Definition hats : jsstring := js "hats".

Definition hatPool : list json :=
  JStr <$> [js "stetson"; js "bowler"; js "derby"; js "gambler"; js "sombrero"; js "bonnet"].

(** The store after the given indices of [hats] were recorded in turn. *)
Definition hatsAfter (indices : list nat) : store :=
  foldl (fun s i => after s hats i) cleared indices.

Definition hatsRun : list (jsstring * nat) := (fun i => (hats, i)) <$> [0; 1; 2; 3; 4; 5].

(** What [setup] writes into the content element. *)
Definition article (content : jsstring) : jsstring :=
  js "<article class=" ++ dq ++ js "article" ++ dq ++ js ">" ++ content ++ js "</article>".

Definition settingsOf (n : Z) (type : IpsumType) : Settings :=
  {| url := js "http://sidlipsum.smnarnold.com"; nbr := Fin (inject_Z n); type := type |}.

Definition cafe : jsstring := js "Caf" ++ [233%N] ++ js " noir ".

Definition cowboy : PartialResult :=
  {| p_type := JStr (js "persons"); p_text := JStr (js "cowboy");
     p_gender := JStr (js "m"); p_number := JStr (js "single") |}.

Definition cowgirl : PartialResult :=
  {| p_type := JStr (js "persons"); p_text := JStr (js "cowgirl");
     p_gender := JStr (js "f"); p_number := JStr (js "single") |}.

(** ** Further inputs and words for the properties of the code *)

(** The number of indices that draws of a pool can give. *)
Definition indexRange (pool : list json) : nat := Nat.max 1 (length pool).

(** The store after the given indices of a category were recorded in turn. *)
Definition recorded (type : jsstring) (indices : list nat) : store :=
  foldl (fun s i => after s type i) cleared indices.

Definition spurStore : json := obj [("spurs", words ["jingle"; "jangle"])]%string.

Definition gunPool : list json :=
  (fun w => JStr (js w)) <$> ["colt"; "derringer"; "winchester"; "remington"; "sharps"]%string.

Definition gunStore : json := obj [("guns", JArr gunPool)]%string.

(** A store whose genders and numbers have the empty string as a key. *)
Definition plainStore : json :=
  obj [("structures", JArr [words ["?persons"; "rides"]]);
       ("persons",
        obj [("structure", words ["item"]);
             ("", obj [("", obj [("item", slot ["cowboy"; "kid"])])])])]%string.

(** The type [persons] of the town store and its feminine numbers. *)
Definition ladiesNumbers : list (jsstring * json) :=
  [(js "single", obj [("item", slot ["cowgirl"])]%string)].

Definition personsType : json :=
  obj [("structure", words ["item"]);
       ("m", obj [("single", obj [("item", slot ["cowboy"])])]);
       ("f", JObj ladiesNumbers)]%string.

(** The values of the dictionary are longer than 3 units. *)
Definition longValues (s : store) : Prop :=
  forall w, w ∈ usedDictionary s -> 3 < length w.

Definition keepsLong (s s' : store) : Prop := longValues s -> longValues s'.


(** A token with the marker of the optional tokens. *)
Definition isOptional (token : json) : bool :=
  match token with
  | JStr (c :: _) => (c =? 42)%N
  | _ => false
  end.

(** The letters that the markup of a unit adds to the count. *)
Definition markupLetters (type : IpsumType) : nat :=
  match type with
  | Paragraphs => 2
  | Lists => 4
  | Sentences | Words => 0
  end.

(** The summary line with a given word figure and a given letter figure. *)
Definition summaryLine {H : Host} (settings : Settings) (wordFigure letterFigure : nat)
  : jsstring :=
  js "<p><strong>" ++ nounPhrase settings
    ++ (match type settings with
        | Words => []
        | _ => js ", " ++ natToString wordFigure ++ js " mots"
        end)
    ++ js ", " ++ natToString letterFigure ++ attribution settings
    ++ js "</strong></p>".

(** ** Properties *)

Section Lemmas.
Context {H : Host}.

Lemma bind_Ret {A B} (c : M A) (k : A -> M B) s t x :
  bind c k s t = Ret x ->
  exists a s1 t1, c s t = Ret (a, s1, t1) /\ k a s1 t1 = Ret x.
Proof.
  unfold bind. destruct (c s t) as [[[a s1] t1]| | |]; try discriminate.
  intros Hk. by exists a, s1, t1.
Qed.

Lemma lift_Ret {A} (c : outcome A) s t x :
  lift c s t = Ret x -> exists a, c = Ret a /\ x = (a, s, t).
Proof.
  unfold lift. destruct c; try discriminate. intros [= <-]. by eexists.
Qed.

Lemma random_Ret s t x :
  random s t = Ret x -> exists r t', t = r :: t' /\ x = (r, s, t').
Proof.
  unfold random. destruct t as [|r t']; try discriminate.
  intros [= <-]. by exists r, t'.
Qed.

Lemma obind_Ret {A B} (c : outcome A) (k : A -> outcome B) x :
  obind c k = Ret x -> exists a, c = Ret a /\ k a = Ret x.
Proof. destruct c; try discriminate. simpl. intros. by eexists. Qed.

Lemma floorMul_draw k n : k < n -> floorMul (draw k n) n = k.
Proof.
  intros Hk. unfold floorMul, draw. simpl.
  replace (Z.of_N (N.of_nat k) + Z.pos (Pos.of_nat (n - k)))%Z with (Z.of_nat n) by lia.
  rewrite Z.div_mul by lia. lia.
Qed.

Lemma floorMul_lt r n : 0 < n -> floorMul r n < n.
Proof.
  intros Hn. unfold floorMul.
  destruct r as [a g]. simpl.
  assert (Hd : (0 < Z.of_N a + Z.pos g)%Z) by lia.
  assert (Hq : (Z.of_N a * Z.of_nat n / (Z.of_N a + Z.pos g) < Z.of_nat n)%Z).
  { apply Z.div_lt_upper_bound; [done|]. nia. }
  assert (Hp : (0 <= Z.of_N a * Z.of_nat n / (Z.of_N a + Z.pos g))%Z).
  { apply Z.div_pos; lia. }
  lia.
Qed.

Lemma floorMul_0 r : floorMul r 0 = 0.
Proof. unfold floorMul. by rewrite Z.mul_0_r, Z.div_0_l by lia. Qed.

(** *** The index-recency memory *)

(** *** Lists *)

Lemma tail_drop {A} (l : list A) : tail l = drop 1 l.
Proof. by destruct l. Qed.

Lemma remember_lastFour h i : remember (lastFour h) i = lastFour (h ++ [i]).
Proof.
  unfold remember, lastFour. rewrite !length_app, length_drop. simpl.
  destruct (decide (length h <= 3)) as [Hle|Hgt].
  - replace (length h - 4) with 0 by lia.
    replace (length h + 1 - 4) with 0 by lia. rewrite !drop_0.
    rewrite (proj2 (Nat.ltb_ge _ _)) by lia. done.
  - rewrite (proj2 (Nat.ltb_lt _ _)) by lia.
    rewrite <- (drop_app_le h [i]) by lia.
    rewrite tail_drop, drop_drop. f_equal. lia.
Qed.

Lemma remember_length used i : length used <= 4 -> length (remember used i) <= 4.
Proof.
  intros Hu. unfold remember. rewrite length_app. simpl.
  destruct (4 <? length used + 1) eqn:E.
  - rewrite tail_drop, length_drop, length_app. simpl. lia.
  - apply Nat.ltb_ge in E. rewrite length_app. simpl. lia.
Qed.

Lemma remember_last used i : last (remember used i) = Some i.
Proof.
  unfold remember. rewrite length_app. simpl.
  destruct (4 <? length used + 1) eqn:E.
  - apply Nat.ltb_lt in E. destruct used as [|x used]; simpl in *; [lia|].
    by rewrite last_snoc.
  - by rewrite last_snoc.
Qed.

Lemma remember_fifo used i :
  remember used i = (if decide (4 <= length used) then tail used else used) ++ [i].
Proof.
  unfold remember. rewrite length_app. simpl.
  destruct (decide (4 <= length used)) as [Hge|Hlt].
  - rewrite (proj2 (Nat.ltb_lt _ _)) by lia.
    destruct used; simpl in *; [lia|done].
  - by rewrite (proj2 (Nat.ltb_ge _ _)) by lia.
Qed.

Section Draws.
Variable data : json.

Lemma getRandomWord_Ret type s t word s' t' :
  getRandomWord data type s t = Ret (word, s', t') ->
  exists list len pre r,
    jget data type = Ret list /\ jlength list = Ret len /\
    t = pre ++ r :: t' /\
    Forall (fun x => floorMul x len ∈ memory s type) pre /\
    (floorMul r len ∉ memory s type) /\
    jindex list (floorMul r len) = Ret word /\
    s' = after s type (floorMul r len).
Proof.
  induction t as [|r t IH]; simpl; intros Hrun.
  - destruct (jget data type); discriminate.
  - destruct (jget data type) as [list| | |] eqn:Hlist; try discriminate.
    simpl in Hrun.
    destruct (jlength list) as [len| | |] eqn:Hlen; try discriminate.
    simpl in Hrun.
    case_bool_decide as Hin; simpl in Hrun.
    + destruct (IH Hrun) as (list' & len' & pre & r' & Hl & Hn & -> & Hpre & Hr & Hw & ->).
      simplify_eq. assert (len' = len) as -> by congruence.
      exists list', len, (r :: pre), r'.
      split_and!; try done. by constructor.
    + destruct (jindex list (floorMul r len)) as [w| | |] eqn:Hw; try discriminate.
      simpl in Hrun. simplify_eq.
      exists list, len, [], r. split_and!; done.
Qed.

Lemma getRandomWord_run type s list len pre r t word :
  jget data type = Ret list -> jlength list = Ret len ->
  Forall (fun x => floorMul x len ∈ memory s type) pre ->
  floorMul r len ∉ memory s type ->
  jindex list (floorMul r len) = Ret word ->
  getRandomWord data type s (pre ++ r :: t)
  = Ret (word, after s type (floorMul r len), t).
Proof.
  intros Hlist Hlen Hpre Hr Hw.
  induction Hpre as [|x pre Hx Hpre IH]; simpl; rewrite Hlist; simpl; rewrite Hlen; simpl.
  - rewrite bool_decide_eq_false_2 by done. simpl. by rewrite Hw.
  - rewrite bool_decide_eq_true_2 by done. simpl. apply IH.
Qed.

Lemma getRandomWord_starved type s list len t :
  jget data type = Ret list -> jlength list = Ret len ->
  Forall (fun x => floorMul x len ∈ memory s type) t ->
  getRandomWord data type s t = Starved.
Proof.
  intros Hlist Hlen Ht.
  induction Ht as [|x t Hx Ht IH]; simpl; rewrite Hlist; simpl; [done|].
  rewrite Hlen. simpl. rewrite bool_decide_eq_true_2 by done. simpl. apply IH.
Qed.

End Draws.

Lemma memory_after s type index type' :
  memory (after s type index) type'
  = if decide (type = type') then remember (memory s type) index else memory s type'.
Proof.
  unfold memory at 1. simpl. rewrite lookup_insert. by destruct (decide _).
Qed.

Lemma freshRun_snoc h i : freshRun h -> i ∉ lastFour h -> freshRun (h ++ [i]).
Proof.
  intros Hh Hi pre j post Heq.
  destruct post as [|k post _] using rev_ind.
  - apply (app_inj_tail h pre i j) in Heq as [-> ->]. done.
  - rewrite app_comm_cons, app_assoc in Heq.
    apply app_inj_tail in Heq as [-> _]. by eapply Hh.
Qed.

Lemma lastFour_suffix (pre w : list nat) x :
  length w <= 4 -> x ∈ w -> x ∈ lastFour (pre ++ w).
Proof.
  intros Hw Hx. unfold lastFour. rewrite length_app.
  destruct (decide (length pre + length w - 4 <= length pre)) as [Hle|Hgt].
  - rewrite drop_app_le by done. set_solver.
  - lia.
Qed.

Lemma freshRun_window h pre w post :
  freshRun h -> h = pre ++ w ++ post -> length w <= 5 -> NoDup w.
Proof.
  intros Hh Heq Hlen. subst h. revert post Hh.
  induction w as [|x w IH] using rev_ind; [constructor|].
  rewrite length_app in Hlen. simpl in Hlen.
  intros post Hh.
  apply NoDup_app. split_and!.
  - apply (IH ltac:(lia) ([x] ++ post)). by rewrite <- app_assoc in Hh.
  - intros y Hy Hyx. apply list_elem_of_singleton in Hyx as ->.
    apply (Hh (pre ++ w) x post).
    + by rewrite <- !app_assoc.
    + apply lastFour_suffix; [lia|done].
  - apply NoDup_singleton.
Qed.

Lemma indicesOf_cons_eq type i tr : indicesOf type ((type, i) :: tr) = i :: indicesOf type tr.
Proof. unfold indicesOf. by rewrite filter_cons_True. Qed.

Lemma indicesOf_cons_ne type type' i tr :
  type' ≠ type -> indicesOf type ((type', i) :: tr) = indicesOf type tr.
Proof. intros. unfold indicesOf. by rewrite filter_cons_False. Qed.

Lemma reaches_history data s tr s' type h :
  reaches data s tr s' ->
  memory s type = lastFour h -> freshRun h ->
  memory s' type = lastFour (h ++ indicesOf type tr)
  /\ freshRun (h ++ indicesOf type tr).
Proof.
  intros Hrun. revert h.
  induction Hrun as [s|s s1 s2 t t1 type' word index tr Hdraw Hlast Hrun IH
                    |s s1 s2 tr Hsame Hrun IH]; intros h Hmem Hfresh.
  - unfold indicesOf. simpl. by rewrite app_nil_r.
  - apply getRandomWord_Ret in Hdraw
      as (list & len & pre & r & _ & _ & _ & _ & Hnew & _ & ->).
    rewrite memory_after in Hlast. rewrite decide_True in Hlast by done.
    rewrite remember_last in Hlast. injection Hlast as <-.
    destruct (decide (type' = type)) as [->|Hne].
    + rewrite indicesOf_cons_eq.
      replace (h ++ floorMul r len :: indicesOf type tr)
        with ((h ++ [floorMul r len]) ++ indicesOf type tr)
        by (by rewrite <- app_assoc).
      apply IH.
      * rewrite memory_after, decide_True by done.
        rewrite Hmem. apply remember_lastFour.
      * apply freshRun_snoc; [done|]. by rewrite <- Hmem.
    + rewrite indicesOf_cons_ne by done. apply IH; [|done].
      rewrite memory_after. by rewrite decide_False.
  - apply IH; [|done]. unfold memory in *. by rewrite Hsame.
Qed.

Lemma lastFour_length h : length (lastFour h) <= 4.
Proof. unfold lastFour. rewrite length_drop. lia. Qed.

Lemma reaches_cleared data tr s type :
  reaches data cleared tr s ->
  memory s type = lastFour (indicesOf type tr) /\ freshRun (indicesOf type tr).
Proof.
  intros Hrun. apply (reaches_history data cleared tr s type [] Hrun).
  - done.
  - intros pre i post Heq. by destruct pre.
Qed.

(** C6. In a generation run, for every category: the recent-index memory
    never holds more than 4 indices; a draw accepts an index that is not in
    the memory and records it at the end, dropping the oldest entry when 4
    are already held; and no index occurs twice among 5 consecutive draws
    of the category (for any pool size, so for pools of 6 entries or more). *)
Theorem index_recency data tr s :
  reaches data cleared tr s ->
  (forall type, length (memory s type) <= 4)
  /\ (forall type t word s' t',
        getRandomWord data type s t = Ret (word, s', t') ->
        exists index,
          (index ∉ memory s type)
          /\ memory s' type
             = (if decide (4 <= length (memory s type))
                then tail (memory s type) else memory s type) ++ [index]
          /\ length (memory s' type) <= 4)
  /\ (forall type pre window post,
        indicesOf type tr = pre ++ window ++ post ->
        length window <= 5 -> NoDup window).
Proof.
  intros Hrun.
  assert (Hall : forall type,
            memory s type = lastFour (indicesOf type tr)
            /\ freshRun (indicesOf type tr))
    by (intros type; by apply (reaches_cleared data)).
  split_and!.
  - intros type. destruct (Hall type) as [-> _]. apply lastFour_length.
  - intros type t word s' t' Hdraw.
    apply getRandomWord_Ret in Hdraw
      as (list & len & pre & r & _ & _ & _ & _ & Hnew & _ & ->).
    exists (floorMul r len). split_and!; [done| |].
    + rewrite memory_after, decide_True by done. apply remember_fifo.
    + rewrite memory_after, decide_True by done. apply remember_length.
      destruct (Hall type) as [-> _]. apply lastFour_length.
  - intros type pre window post Heq Hlen.
    destruct (Hall type) as [_ Hfresh]. by eapply freshRun_window.
Qed.

Lemma spare_index (used : list nat) n :
  length used < n -> exists k, k < n /\ k ∉ used.
Proof.
  intros Hlen.
  destruct (decide (Forall (fun k => k ∈ used) (seq 0 n))) as [Hall|Hsome].
  - assert (seq 0 n ⊆+ used) as Hsub.
    { apply NoDup_submseteq; [apply NoDup_seq|].
      intros x Hx. by apply (proj1 (Forall_forall _ _) Hall). }
    apply submseteq_length in Hsub. rewrite length_seq in Hsub. lia.
  - apply not_Forall_Exists in Hsome; [|apply _].
    apply Exists_exists in Hsome as (k & Hk & Hnot).
    apply elem_of_seq in Hk. exists k. split; [lia|done].
Qed.

(** C2, amended. A category draw on an empty pool raises no error: with an
    empty memory it accepts index 0 and yields [undefined], and once index 0
    is remembered every attempt is rejected and the draw never returns. For
    a pool of more than 4 entries and a memory of at most 4 indices, some
    draw is accepted at once; the draw returns the pool entry of the first
    random draw whose index is outside the memory, and it does not return
    as long as every draw falls inside it. *)
Theorem category_draw_termination :
  (forall data type s,
      jget data type = Ret (JArr []) ->
      (memory s type = [] ->
       forall r t, getRandomWord data type s (r :: t) = Ret (JUndef, after s type 0, t))
      /\ (0 ∈ memory s type ->
          forall t, getRandomWord data type s t = Starved))
  /\ (forall data type pool s,
        jget data type = Ret (JArr pool) ->
        4 < length pool ->
        length (memory s type) <= 4 ->
        (exists r, forall t, exists word,
            word ∈ pool
            /\ getRandomWord data type s (r :: t)
               = Ret (word, after s type (floorMul r (length pool)), t))
        /\ (forall pre r t,
              Forall (fun x => floorMul x (length pool) ∈ memory s type) pre ->
              floorMul r (length pool) ∉ memory s type ->
              exists word,
                pool !! floorMul r (length pool) = Some word
                /\ getRandomWord data type s (pre ++ r :: t)
                   = Ret (word, after s type (floorMul r (length pool)), t))
        /\ (forall t,
              Forall (fun x => floorMul x (length pool) ∈ memory s type) t ->
              getRandomWord data type s t = Starved)).
Proof.
  split.
  - intros data type s Hpool. split.
    + intros Hmem r t.
      replace (after s type 0) with (after s type (floorMul r 0))
        by (by rewrite floorMul_0).
      apply (getRandomWord_run data type s (JArr []) 0 [] r t JUndef);
        [done | done | constructor | rewrite Hmem; set_solver | done].
    + intros Hin t.
      apply (getRandomWord_starved data type s (JArr []) 0); try done.
      apply Forall_forall. intros x _. by rewrite floorMul_0.
  - intros data type pool s Hpool Hlen Hmem.
    assert (Hacc : forall pre r t,
              Forall (fun x => floorMul x (length pool) ∈ memory s type) pre ->
              floorMul r (length pool) ∉ memory s type ->
              exists word,
                pool !! floorMul r (length pool) = Some word
                /\ getRandomWord data type s (pre ++ r :: t)
                   = Ret (word, after s type (floorMul r (length pool)), t)).
    { intros pre r t Hpre Hr.
      destruct (lookup_lt_is_Some_2 pool (floorMul r (length pool))) as [word Hword].
      { apply floorMul_lt. lia. }
      exists word. split; [done|].
      apply (getRandomWord_run data type s (JArr pool) (length pool)); try done.
      simpl. by rewrite Hword. }
    split_and!.
    + destruct (spare_index (memory s type) (length pool)) as (k & Hk & Hfree); [lia|].
      exists (draw k (length pool)). intros t.
      destruct (Hacc [] (draw k (length pool)) t) as (word & Hword & Hrun).
      * constructor.
      * by rewrite floorMul_draw.
      * exists word. split; [by eapply list_elem_of_lookup_2|done].
    + done.
    + intros t Ht. by apply (getRandomWord_starved data type s (JArr pool) (length pool)).
Qed.

(** *** What every computation of the engine keeps *)

Section Keeps.
Variable P : store -> store -> Prop.
Hypothesis P_refl : forall s, P s s.
Hypothesis P_trans : forall s1 s2 s3, P s1 s2 -> P s2 s3 -> P s1 s3.

Lemma keeps_ret {A} (a : A) : keeps P (ret a).
Proof. intros s t a' s' t' [= _ <- _]. apply P_refl. Qed.

Lemma keeps_bind {A B} (c : M A) (k : A -> M B) :
  keeps P c -> (forall a, keeps P (k a)) -> keeps P (bind c k).
Proof.
  intros Hc Hk s t b s' t' Hrun.
  apply bind_Ret in Hrun as (a & s1 & t1 & Hc1 & Hk1).
  eapply P_trans; [by eapply Hc|by eapply Hk].
Qed.

Lemma keeps_lift {A} (c : outcome A) : keeps P (lift c).
Proof. intros s t a s' t' Hrun. apply lift_Ret in Hrun as (? & _ & [= _ <- _]). apply P_refl. Qed.

Lemma keeps_random : keeps P random.
Proof. intros s t a s' t' Hrun. apply random_Ret in Hrun as (? & ? & _ & [= _ <- _]). apply P_refl. Qed.

Lemma keeps_throw {A} e : keeps P (@throw A e).
Proof. intros s t a s' t' Hrun. discriminate. Qed.

Lemma keeps_beyond {A} : keeps P (@beyond A).
Proof. intros s t a s' t' Hrun. discriminate. Qed.

Lemma keeps_mapM {A B} (f : A -> M B) l :
  (forall x, keeps P (f x)) -> keeps P (mapM f l).
Proof.
  intros Hf. induction l as [|x l IH]; simpl.
  - apply keeps_ret.
  - apply keeps_bind; [done|]. intros y.
    apply keeps_bind; [done|]. intros ys. apply keeps_ret.
Qed.

Lemma keeps_repeatM {A} (f : M A) n : keeps P f -> keeps P (repeatM n f).
Proof.
  intros Hf. induction n as [|n IH]; simpl.
  - apply keeps_ret.
  - apply keeps_bind; [done|]. intros y.
    apply keeps_bind; [done|]. intros ys. apply keeps_ret.
Qed.

Lemma keeps_randomFromArray arr : keeps P (randomFromArray arr).
Proof.
  unfold randomFromArray.
  apply keeps_bind; [apply keeps_random|]. intros r.
  apply keeps_bind; [apply keeps_lift|]. intros len. apply keeps_lift.
Qed.

Variable data : json.
Variable wordsArr : list json.
Hypothesis P_draw : forall type, keeps P (getRandomWord data type).
Hypothesis P_noted :
  forall s w, w ∉ usedDictionary s -> 3 < length w -> P s (noted s w).

Ltac keeps_step known :=
  lazymatch goal with
  | |- keeps _ (bind _ _) => apply keeps_bind; [|intros ?]
  | |- keeps _ (ret _) => apply keeps_ret
  | |- keeps _ (lift _) => apply keeps_lift
  | |- keeps _ random => apply keeps_random
  | |- keeps _ (throw _) => apply keeps_throw
  | |- keeps _ beyond => apply keeps_beyond
  | |- keeps _ (randomFromArray _) => apply keeps_randomFromArray
  | |- keeps _ (getRandomWord _ _) => apply P_draw
  | |- keeps _ (mapM _ _) => apply keeps_mapM; intros ?
  | |- keeps _ (repeatM _ _) => apply keeps_repeatM
  | |- keeps _ (if ?b then _ else _) => destruct b
  | |- keeps _ (match ?x with _ => _ end) => destruct x
  | |- _ => known
  end.

Ltac keeps_auto known := repeat (keeps_step known).

Lemma keeps_getRandomNoRepeat arr : keeps P (getRandomNoRepeat arr).
Proof.
  unfold getRandomNoRepeat.
  apply keeps_bind; [apply keeps_randomFromArray|]. intros word.
  destruct word; try by keeps_auto fail.
  intros s0 t0 a s' t' Hrun.
  destruct (negb _ && _) eqn:Hfirst.
  - injection Hrun as _ <- _.
    apply andb_true_iff in Hfirst as [Hnew Hlong].
    apply negb_true_iff, bool_decide_eq_false in Hnew.
    apply Nat.ltb_lt in Hlong. by apply P_noted.
  - by eapply keeps_randomFromArray.
Qed.

Lemma keeps_randomWordFromPool : keeps P (randomWordFromPool wordsArr).
Proof. unfold randomWordFromPool. keeps_auto fail. Qed.

Lemma keeps_mergePartials arr type typeObj : keeps P (mergePartials arr type typeObj).
Proof.
  unfold mergePartials.
  apply keeps_bind; [|intros; apply keeps_ret].
  generalize (match arr with
              | p :: _ => p
              | [] => {| p_type := JUndef; p_text := JUndef;
                         p_gender := JUndef; p_number := JUndef |}
              end).
  induction (tail arr) as [|p rest IH]; intros base; simpl.
  - apply keeps_ret.
  - apply keeps_bind; [|intros; apply IH].
    unfold mergeStep. keeps_auto fail.
Qed.

Lemma keeps_partialPiece obj category : keeps P (partialPiece obj category).
Proof.
  unfold partialPiece.
  keeps_auto ltac:(apply keeps_getRandomNoRepeat).
Qed.

Lemma keeps_getPartial type preset : keeps P (getPartial data type preset).
Proof.
  unfold getPartial. keeps_auto ltac:(apply keeps_partialPiece).
Qed.

Lemma keeps_getSection originalType preset :
  keeps P (getSection data originalType preset).
Proof.
  unfold getSection.
  keeps_auto ltac:(first [apply keeps_getPartial | apply keeps_mergePartials]).
Qed.

Lemma keeps_plainToken token parts : keeps P (plainToken data token parts).
Proof. unfold plainToken. keeps_auto fail. Qed.

Lemma keeps_sentenceLoop tokens parts protagonist :
  keeps P (sentenceLoop data tokens parts protagonist).
Proof.
  revert parts protagonist.
  induction tokens as [|tok rest IH]; intros parts protagonist; simpl.
  - apply keeps_ret.
  - keeps_auto ltac:(first [apply IH | apply keeps_plainToken | apply keeps_getSection]).
Qed.

Lemma keeps_generateSentence : keeps P (generateSentence data).
Proof. unfold generateSentence. keeps_auto ltac:(apply keeps_sentenceLoop). Qed.

Lemma keeps_generateParagraph : keeps P (generateParagraph data).
Proof.
  unfold generateParagraph, randomBetween.
  keeps_auto ltac:(apply keeps_generateSentence).
Qed.

Lemma keeps_getLoremIpsum type : keeps P (getLoremIpsum data wordsArr type).
Proof.
  unfold getLoremIpsum.
  keeps_auto ltac:(first [apply keeps_generateSentence | apply keeps_generateParagraph
                         | apply keeps_randomWordFromPool]).
Qed.

End Keeps.

Section Dictionary.

Lemma randomFromArray_pool pool s r t :
  randomFromArray (JArr pool) s (r :: t) = Ret (pick pool r, s, t).
Proof. done. Qed.

Lemma getRandomWord_keeps_dictionary data type : keeps dictGrows (getRandomWord data type).
Proof.
  intros s t a s' t' Hrun.
  apply getRandomWord_Ret in Hrun as (? & ? & ? & ? & _ & _ & _ & _ & _ & _ & ->).
  by unfold dictGrows.
Qed.

Lemma getLoremIpsum_keeps_dictionary data wordsArr type :
  keeps dictGrows (getLoremIpsum data wordsArr type).
Proof.
  apply keeps_getLoremIpsum.
  - by unfold dictGrows.
  - intros s1 s2 s3 H12 H23. unfold dictGrows in *. set_solver.
  - apply getRandomWord_keeps_dictionary.
  - intros s w _ _. unfold dictGrows. simpl. set_solver.
Qed.

(** C7. When the first pick of [getRandomNoRepeat] is a string that is
    absent from the used-value set and longer than 3 units, it is returned
    and added to the set; otherwise the result is a second pick, accepted as
    it is, and the set is left alone. Hence once a value has been accepted
    by the first pick, a later call of the run whose first pick is that
    value always takes the second pick: the set only grows during a run. *)
Theorem value_dictionary_draw (pool : list json) (w : jsstring) (s : store)
  (r1 : rnd) (t : list rnd) :
  pick pool r1 = JStr w ->
  (w ∉ usedDictionary s -> 3 < length w ->
   getRandomNoRepeat (JArr pool) s (r1 :: t) = Ret (JStr w, noted s w, t))
  /\ (w ∈ usedDictionary s \/ length w <= 3 ->
      getRandomNoRepeat (JArr pool) s (r1 :: t)
      = match t with
        | r2 :: t' => Ret (pick pool r2, s, t')
        | [] => Starved
        end)
  /\ (forall s1 pool1 r r2 t1,
        usedDictionary (noted s w) ⊆ usedDictionary s1 ->
        pick pool1 r = JStr w ->
        getRandomNoRepeat (JArr pool1) s1 (r :: r2 :: t1)
        = Ret (pick pool1 r2, s1, t1))
  /\ (forall data wordsArr type s0 t0 unit s1 t1,
        getLoremIpsum data wordsArr type s0 t0 = Ret (unit, s1, t1) ->
        usedDictionary s0 ⊆ usedDictionary s1).
Proof.
  intros Hpick.
  assert (Hfall : forall s1 pool1 r t1,
            pick pool1 r = JStr w ->
            w ∈ usedDictionary s1 \/ length w <= 3 ->
            getRandomNoRepeat (JArr pool1) s1 (r :: t1)
            = match t1 with
              | r2 :: t' => Ret (pick pool1 r2, s1, t')
              | [] => Starved
              end).
  { intros s1 pool1 r t1 Hp Hcase.
    unfold getRandomNoRepeat, bind. rewrite randomFromArray_pool, Hp.
    assert (negb (bool_decide (w ∈ usedDictionary s1)) && (3 <? length w) = false) as ->.
    { destruct Hcase as [Hin|Hshort].
      - by rewrite bool_decide_eq_true_2.
      - rewrite (proj2 (Nat.ltb_ge _ _)) by done. apply andb_false_r. }
    by destruct t1. }
  split_and!.
  - intros Hnew Hlong.
    unfold getRandomNoRepeat, bind. rewrite randomFromArray_pool, Hpick.
    rewrite bool_decide_eq_false_2 by done.
    by rewrite (proj2 (Nat.ltb_lt _ _)) by done.
  - by apply Hfall.
  - intros s1 pool1 r r2 t1 Hsub Hp.
    rewrite (Hfall s1 pool1 r (r2 :: t1) Hp); [done|].
    left. apply Hsub. simpl. set_solver.
  - intros data wordsArr type s0 t0 unit s1 t1 Hrun.
    by eapply getLoremIpsum_keeps_dictionary.
Qed.

End Dictionary.

(** *** The merge of partials *)

Lemma strictNe_strings x y :
  strictNe (JStr x) (JStr y) = Ret (negb (bool_decide (x = y))).
Proof. done. Qed.

Lemma run_ret {A B} (a : A) (k : A -> M B) s t : bind (ret a) k s t = k a s t.
Proof. done. Qed.

Lemma run_lift {A B} (c : outcome A) (k : A -> M B) a s t :
  c = Ret a -> bind (lift c) k s t = k a s t.
Proof. by intros ->. Qed.

Lemma run_random {B} (k : rnd -> M B) s r t : bind random k s (r :: t) = k r s t.
Proof. done. Qed.

Lemma run_randomFromArray {B} pool (k : json -> M B) s r t :
  bind (randomFromArray (JArr pool)) k s (r :: t) = k (pick pool r) s t.
Proof. done. Qed.

Lemma run_bind_assoc {A B C} (c : M A) (k : A -> M B) (k' : B -> M C) s t :
  bind (bind c k) k' s t = bind c (fun a => bind (k a) k') s t.
Proof. unfold bind. by destruct (c s t) as [[[a s1] t1]| | |]. Qed.

Lemma jsAdd_string_r a x : jsAdd a (JStr x) = Ret (JStr (ToString a ++ x)).
Proof. unfold jsAdd. by rewrite andb_false_r. Qed.

Lemma mergeStep_run typeObj seps base p g g0 x s r t :
  jget typeObj (js "sep") = Ret (JArr seps) ->
  p_gender p = JStr g -> p_gender base = JStr g0 -> p_text p = JStr x ->
  mergeStep typeObj base p s (r :: t)
  = Ret ({| p_type := p_type base;
            p_text := JStr (ToString (p_text base) ++ ToString (pick seps r) ++ x);
            p_gender := genderStep (p_gender base) p;
            p_number := p_number base |}, s, t).
Proof.
  intros Hsep Hg Hg0 Hx. unfold mergeStep, genderStep.
  rewrite Hg, Hg0, strictNe_strings.
  erewrite run_lift by done. erewrite run_lift by done.
  rewrite run_randomFromArray. rewrite Hx.
  erewrite run_lift by apply jsAdd_string_r.
  erewrite run_lift by apply jsAdd_string_r.
  unfold ret. by destruct (negb _).
Qed.

Lemma mergeLoop_run typeObj seps base rest s t :
  jget typeObj (js "sep") = Ret (JArr seps) ->
  hasStringGender base ->
  Forall hasStringGender rest -> Forall hasStringText rest ->
  length rest <= length t ->
  mergeLoop typeObj base rest s t
  = Ret ({| p_type := p_type base;
            p_text := match rest with
                      | [] => p_text base
                      | _ => JStr (ToString (p_text base) ++ appended seps (p_text <$> rest) t)
                      end;
            p_gender := foldl genderStep (p_gender base) rest;
            p_number := p_number base |}, s, drop (length rest) t).
Proof.
  intros Hsep. revert base t.
  induction rest as [|p rest IH]; intros base t Hbase Hg Ht Hlen.
  - simpl. by destruct base.
  - apply Forall_cons in Hg as [[g Hg] Hgs]. apply Forall_cons in Ht as [[x Hx] Hts].
    destruct Hbase as [g0 Hg0].
    destruct t as [|r t]; simpl in Hlen; [lia|].
    cbn [mergeLoop]. unfold bind at 1.
    erewrite mergeStep_run by done.
    rewrite IH; try done; [|unfold genderStep, hasStringGender; simpl;
                            rewrite Hg, Hg0, strictNe_strings;
                            destruct (negb _); by eexists|lia].
    cbn [p_type p_text p_gender p_number fmap list_fmap appended length drop foldl ToString].
    rewrite Hx. cbn [ToString].
    do 3 f_equal. destruct rest; [by rewrite app_nil_r|].
    by rewrite <- !app_assoc.
Qed.

Lemma genderStep_string g0 g p :
  p_gender p = JStr g ->
  genderStep (JStr g0) p = if decide (g = g0) then JStr g0 else JStr (js "m").
Proof.
  intros Hg. unfold genderStep. rewrite Hg, strictNe_strings.
  destruct (decide (g = g0)) as [->|Hne].
  - by rewrite bool_decide_eq_true_2.
  - by rewrite bool_decide_eq_false_2.
Qed.

Lemma foldl_genderStep_m rest :
  Forall hasStringGender rest -> foldl genderStep (JStr (js "m")) rest = JStr (js "m").
Proof.
  induction 1 as [|p rest [g Hp] _ IH]; [done|]. simpl.
  rewrite (genderStep_string _ g) by done. by destruct (decide _).
Qed.

Lemma foldl_genderStep_same g0 rest :
  Forall (fun p => p_gender p = JStr g0) rest -> foldl genderStep (JStr g0) rest = JStr g0.
Proof.
  induction 1 as [|p rest Hp _ IH]; [done|]. simpl.
  rewrite (genderStep_string _ g0) by done. by rewrite decide_True.
Qed.

Lemma foldl_genderStep_differs g0 rest :
  Forall hasStringGender rest ->
  Exists (fun p => p_gender p ≠ JStr g0) rest ->
  foldl genderStep (JStr g0) rest = JStr (js "m").
Proof.
  intros Hall. revert g0.
  induction Hall as [|p rest [g Hp] Hall IH]; intros g0 Hex.
  - by apply Exists_nil in Hex.
  - simpl. rewrite (genderStep_string _ g) by done.
    destruct (decide (g = g0)) as [->|Hne].
    + apply Exists_cons in Hex as [Hp'|Hex]; [done|]. by apply IH.
    + by apply foldl_genderStep_m.
Qed.

Lemma pick_elem_of pool r : pool ≠ [] -> pick pool r ∈ pool.
Proof.
  intros Hne. unfold pick.
  destruct (lookup_lt_is_Some_2 pool (floorMul r (length pool))) as [x Hx].
  { apply floorMul_lt. destruct pool; [done|simpl; lia]. }
  rewrite Hx. simpl. by eapply list_elem_of_lookup_2.
Qed.

(** C8. A merge of two or more partials with [string] genders and texts,
    over a non-empty separator pool, returns; its type is the section type
    name, its number is "plural", its gender is "m" as soon as one later
    partial differs in gender from the first and the common gender
    otherwise, and its text is the first text followed, for every later
    partial, by a separator picked in the pool and the text of the partial. *)
Theorem merge_rule (first : PartialResult) (rest : list PartialResult)
  (type : jsstring) (typeObj : json) (seps : list json) (s : store) (t : list rnd) :
  rest ≠ [] ->
  jget typeObj (js "sep") = Ret (JArr seps) ->
  seps ≠ [] ->
  Forall hasStringGender (first :: rest) ->
  Forall hasStringText (first :: rest) ->
  length rest <= length t ->
  exists merged,
    mergePartials (first :: rest) type typeObj s t
    = Ret (merged, s, drop (length rest) t)
    /\ p_type merged = JStr type
    /\ p_number merged = JStr (js "plural")
    /\ (Exists (fun p => p_gender p ≠ p_gender first) rest ->
        p_gender merged = JStr (js "m"))
    /\ (Forall (fun p => p_gender p = p_gender first) rest ->
        p_gender merged = p_gender first)
    /\ p_text merged
       = JStr (ToString (p_text first) ++ appended seps (p_text <$> rest) t)
    /\ Forall (fun r => pick seps r ∈ seps) (take (length rest) t).
Proof.
  intros Hrest Hsep Hseps Hg Ht Hlen.
  apply Forall_cons in Hg as [Hg0 Hg]. apply Forall_cons in Ht as [_ Ht].
  eexists. split.
  { unfold mergePartials. cbn [tail]. unfold bind.
    erewrite mergeLoop_run by done. reflexivity. }
  cbn [p_type p_number p_gender p_text].
  destruct Hg0 as [g0 Hg0]. rewrite Hg0.
  split_and!; try done.
  - by apply foldl_genderStep_differs.
  - by apply foldl_genderStep_same.
  - by destruct rest.
  - apply Forall_forall. intros r _. by apply pick_elem_of.
Qed.

(** *** The summary line *)

Lemma endsInWs_cons b c s : endsInWs b (c :: s) = endsInWs (isWs c) s.
Proof.
  unfold endsInWs. destruct s as [|d s]; [done|]. rewrite last_cons_cons.
  destruct (last (d :: s)) eqn:E; [done|]. by apply last_None in E.
Qed.

Lemma splitWsFrom_length b s :
  length (splitWsFrom b s)
  = tokensFrom b s + (if b then 0 else 1) + (if endsInWs b s then 1 else 0).
Proof.
  revert b. induction s as [|c s IH]; intros b.
  - simpl. unfold endsInWs. simpl. by destruct b.
  - rewrite endsInWs_cons. simpl. destruct (isWs c) eqn:Hc.
    + destruct b; simpl; rewrite IH; lia.
    + specialize (IH false).
      destruct (splitWsFrom false s) as [|p ps] eqn:Hsplit; simpl in *; destruct b; lia.
Qed.

Lemma tokensFrom_start s :
  tokensFrom true s = tokensFrom false s + (if negb (startsWithWs s) && negb (bool_decide (s = [])) then 1 else 0).
Proof.
  destruct s as [|c s]; [done|]. simpl. destruct (isWs c); simpl; lia.
Qed.

Lemma stripNonLetters_filter s :
  stripNonLetters s = filter (fun c => isAsciiLetter c = true) s.
Proof.
  induction s as [|c s IH]; [done|]. simpl.
  destruct (isAsciiLetter c) eqn:Hc.
  - rewrite filter_cons_True by done. by rewrite IH.
  - rewrite filter_cons_False by (by rewrite Hc). by rewrite IH.
Qed.

(** C9, amended. The summary line is the noun phrase of the mode, then,
    except in Word mode, the number of pieces of the text cut at white
    space, then the number of ASCII letters of the text. The number of
    pieces is the number of white space tokens whenever the text is not
    empty and neither starts nor ends with white space. *)
Theorem summary_counts (settings : Settings) (text : jsstring) :
  updateResume settings text
  = js "<p><strong>" ++ nounPhrase settings
      ++ (match type settings with
          | Words => []
          | _ => js ", " ++ natToString (length (splitWs text)) ++ js " mots"
          end)
      ++ js ", " ++ natToString (countAsciiLetters text) ++ attribution settings
      ++ js "</strong></p>"
  /\ (text ≠ [] -> startsWithWs text = false -> endsWithWs text = false ->
      length (splitWs text) = countTokens text).
Proof.
  split.
  - unfold updateResume, nounPhrase, attribution, countAsciiLetters.
    rewrite stripNonLetters_filter.
    destruct (type settings); by rewrite <- ?app_assoc.
  - intros Hne Hstart Hend. unfold splitWs, countTokens.
    rewrite splitWsFrom_length, tokensFrom_start, Hstart.
    rewrite bool_decide_eq_false_2 by done. simpl.
    unfold endsInWs. unfold endsWithWs in Hend.
    destruct (last text) as [c|] eqn:Hlast.
    + rewrite Hend. lia.
    + apply last_None in Hlast. done.
Qed.

(** *** The units of a run *)

Section Units.
Variable data : json.
Variable wordsArr : list json.

Lemma splitOn_pieces sep s : Forall (fun p => sep ∉ p) (splitOn sep s).
Proof.
  induction s as [|c s IH]; simpl.
  - repeat constructor. apply not_elem_of_nil.
  - destruct (N.eqb_spec c sep) as [->|Hne].
    + constructor; [apply not_elem_of_nil|done].
    + destruct (splitOn sep s) as [|p ps].
      * repeat constructor. apply not_elem_of_cons. split; [done|apply not_elem_of_nil].
      * apply Forall_cons in IH as [Hp Hps]. constructor; [|done].
        apply not_elem_of_cons. by split.
Qed.

Lemma splitOn_nonempty sep s : splitOn sep s ≠ [].
Proof.
  destruct s as [|c s]; simpl; [done|].
  destruct (c =? sep)%N; [done|]. by destruct (splitOn sep s).
Qed.

Lemma randomWordFromPool_Ret s t w s' t' :
  randomWordFromPool wordsArr s t = Ret (w, s', t') ->
  exists p, w = JStr p /\ 32%N ∉ p.
Proof.
  unfold randomWordFromPool. intros Hrun.
  apply bind_Ret in Hrun as (item & s1 & t1 & _ & Hrun).
  destruct item as [| | | |str| |]; try discriminate.
  unfold randomFromArray in Hrun.
  apply bind_Ret in Hrun as (r & s2 & t2 & _ & Hrun).
  apply bind_Ret in Hrun as (len & s3 & t3 & Hlen & Hrun).
  apply lift_Ret in Hlen as (len' & Hlen & Heq).
  apply lift_Ret in Hrun as (w' & Hidx & Heq').
  simpl in Hlen, Hidx. simplify_eq.
  rewrite length_fmap, list_lookup_fmap.
  destruct (lookup_lt_is_Some_2 (splitOn 32 str) (floorMul r (length (splitOn 32 str))))
    as [p Hp].
  { apply floorMul_lt. pose proof (splitOn_nonempty 32 str).
    destruct (splitOn 32 str); [done|simpl; lia]. }
  rewrite Hp. simpl. exists p. split; [done|].
  apply list_elem_of_lookup_2 in Hp.
  by apply (proj1 (Forall_forall _ _) (splitOn_pieces 32 str)).
Qed.

Lemma repeatM_chain {A} (f : M A) n s t l s' t' :
  repeatM n f s t = Ret (l, s', t') ->
  length l = n /\ chain (returns f) s t l s' t'.
Proof.
  revert s t l. induction n as [|n IH]; intros s t l Hrun; simpl in Hrun.
  - injection Hrun as <- <- <-. split; [done|constructor].
  - apply bind_Ret in Hrun as (a & s1 & t1 & Ha & Hrun).
    apply bind_Ret in Hrun as (l1 & s2 & t2 & Hl & Hrun).
    injection Hrun as <- <- <-.
    destruct (IH _ _ _ Hl) as [Hlen Hchain].
    split; [simpl; by rewrite Hlen|]. by econstructor.
Qed.


(** The chain of the values seen through a layout. *)
Lemma chain_wrapped {A B} (g : B -> A)
  (R : store -> list rnd -> A -> store -> list rnd -> Prop)
  (Q : store -> list rnd -> B -> store -> list rnd -> Prop) s t us s' t' :
  (forall s t u s' t', R s t u s' t' -> exists v, u = g v /\ Q s t v s' t') ->
  chain R s t us s' t' ->
  exists vs, us = g <$> vs /\ chain Q s t vs s' t'.
Proof.
  intros HR. induction 1 as [s t|s t u s1 t1 us s2 t2 Hu _ (vs & -> & Hvs)].
  - exists []. split; [done|constructor].
  - apply HR in Hu as (v & -> & Hv). exists (v :: vs). split; [done|by econstructor].
Qed.


Lemma getLoremIpsum_Ret type s t u s' t' :
  getLoremIpsum data wordsArr type s t = Ret (u, s', t') ->
  exists v, u = wrap type v /\ unitOf data wordsArr type s t v s' t'.
Proof.
  destruct type; simpl; intros Hrun.
  - unfold generateParagraph, randomBetween in Hrun.
    apply bind_Ret in Hrun as (n & s1 & t1 & Hn & Hrun).
    apply bind_Ret in Hn as (r & s0 & t0 & Hr & Hn). injection Hn as <- <- <-.
    apply random_Ret in Hr as (r' & t0' & -> & Hr). injection Hr as <- <- <-.
    apply bind_Ret in Hrun as (sentences & s2 & t2 & Hs & Hrun).
    injection Hrun as <- <- <-.
    apply repeatM_chain in Hs as [Hlen Hchain].
    exists (joinWith (js " ") sentences). split; [done|].
    exists r, t0, sentences. split_and!; try done.
    + rewrite Hlen. pose proof (floorMul_lt r 7). lia.
    + rewrite Hlen. pose proof (floorMul_lt r 7). lia.
  - apply bind_Ret in Hrun as (v & s1 & t1 & Hv & Hrun). injection Hrun as <- <- <-.
    by exists v.
  - apply bind_Ret in Hrun as (w & s1 & t1 & Hw & Hrun).
    pose proof Hw as Hword.
    apply randomWordFromPool_Ret in Hword as (p & -> & Hp).
    apply bind_Ret in Hrun as (v & s2 & t2 & Hv & Hrun).
    apply lift_Ret in Hv as (v' & Hv & Heq). rewrite jsAdd_string_r in Hv.
    injection Hv as <-. injection Heq as -> -> ->. injection Hrun as <- <- <-.
    exists p. by split.
  - apply bind_Ret in Hrun as (v & s1 & t1 & Hv & Hrun). injection Hrun as <- <- <-.
    by exists v.
Qed.



Lemma count_length n :
  (Z.of_nat n < 2 ^ 32)%Z ->
  (2 ^ 32 <=? ToLength (Fin (inject_Z (Z.of_nat n))))%Z = false
  /\ Z.to_nat (ToLength (Fin (inject_Z (Z.of_nat n)))) = n.
Proof.
  intros Hn. unfold ToLength. rewrite Qfloor_Z.
  split; [apply Z.leb_gt|]; lia.
Qed.

Lemma setupContent_units (settings : Settings) (n : nat) (s : store) (t : list rnd)
  (content : jsstring) (s' : store) (t' : list rnd) :
  nbr settings = Fin (inject_Z (Z.of_nat n)) ->
  setupContent data wordsArr settings s t = Ret (content, s', t') ->
  exists units,
    length units = n
    /\ chain (unitOf data wordsArr (type settings)) cleared t units s' t'
    /\ content = concat (wrap (type settings) <$> units).
Proof.
  intros Hnbr Hrun. unfold setupContent in Hrun.
  apply bind_Ret in Hrun as (units & s1 & t1 & Hunits & Hrun).
  injection Hrun as <- <- <-.
  unfold arrayFrom in Hunits. rewrite Hnbr in Hunits.
  destruct (2 ^ 32 <=? ToLength (Fin (inject_Z (Z.of_nat n))))%Z eqn:Hbig; [discriminate|].
  apply Z.leb_gt in Hbig.
  assert (Z.of_nat n < 2 ^ 32)%Z as Hsmall.
  { revert Hbig. unfold ToLength. rewrite Qfloor_Z. lia. }
  rewrite (proj2 (count_length n Hsmall)) in Hunits.
  apply repeatM_chain in Hunits as [Hl Hchain].
  apply (chain_wrapped (wrap (type settings)) _
           (unitOf data wordsArr (type settings))) in Hchain as (vs & -> & Hvs).
  2: { intros ????? Hu. by apply getLoremIpsum_Ret. }
  exists vs. by rewrite length_fmap in Hl.
Qed.


End Units.

(** *** The count *)

Lemma Qeq_bool_false_lt q : (q < 0)%Q \/ (0 < q)%Q -> Qeq_bool q 0 = false.
Proof.
  intros Hq. destruct (Qeq_bool q 0) eqn:E; [|done].
  apply Qeq_bool_iff in E. rewrite E in Hq. destruct Hq as [Hq|Hq]; by apply Qlt_irrefl in Hq.
Qed.

Lemma Qfloor_negative q : (q < 0)%Q -> (Qfloor q < 0)%Z.
Proof.
  intros Hq. pose proof (Qfloor_le q) as Hle.
  apply Z.lt_nge. intros Hge.
  assert (0 <= inject_Z (Qfloor q))%Q as H0.
  { change 0%Q with (inject_Z 0). by rewrite <- Zle_Qle. }
  apply (Qlt_irrefl 0). eapply Qle_lt_trans; [|exact Hq]. by eapply Qle_trans.
Qed.

(** C3, amended. A count that is 0 or NaN is replaced by 1. A negative
    count is kept and gives an empty text. A positive count is kept and
    gives the text of its integer part. *)
Theorem count_normalisation (data : json) (wordsArr : list json)
  (u : jsstring) (ty : IpsumType) :
  (forall value, truthyNumber value = false -> orOne value = Fin 1)
  /\ (forall q s t, (q < 0)%Q ->
        setupContent data wordsArr {| url := u; nbr := orOne (Fin q); type := ty |} s t
        = Ret ([], cleared, t))
  /\ (forall q s t, (0 < q)%Q ->
        setupContent data wordsArr {| url := u; nbr := orOne (Fin q); type := ty |} s t
        = setupContent data wordsArr
            {| url := u; nbr := Fin (inject_Z (Qfloor q)); type := ty |} s t).
Proof.
  split_and!.
  - intros value Hv. unfold orOne. by rewrite Hv.
  - intros q s t Hq. unfold setupContent, orOne, arrayFrom. simpl.
    rewrite Qeq_bool_false_lt by (by left). simpl.
    pose proof (Qfloor_negative q Hq).
    replace (Z.min (Z.max (Qfloor q) 0) (2 ^ 53 - 1)) with 0%Z by lia.
    done.
  - intros q s t Hq.
    assert (ToLength (Fin (inject_Z (Qfloor q))) = ToLength (Fin q)) as Hlen.
    { unfold ToLength. by rewrite Qfloor_Z. }
    unfold setupContent, orOne, arrayFrom. cbn [nbr type truthyNumber].
    rewrite Qeq_bool_false_lt by (by right). cbn [negb].
    by rewrite Hlen.
Qed.

(** *** References that the store does not define *)

(** A lookup in an object gives [undefined] exactly for the names that are
    neither own properties nor members of [Object.prototype]. *)
Lemma jget_undefined (fields : list (jsstring * json)) (name : jsstring) :
  assoc name fields = None -> inherited name = false ->
  jget (JObj fields) name = Ret JUndef.
Proof. intros Hown Hproto. simpl. by rewrite Hown, Hproto. Qed.

(** C4, amended. For a name that the Template Store does not define, and
    that is no member that every object inherits: a section token of that
    name makes the sentence fail at once with a [TypeError]; a plain token
    of that name, and an optional token of that name when it is included,
    are pushed as literal text. *)
Theorem unresolved_reference (fields : list (jsstring * json)) (name : jsstring)
  (rest parts : list json) (protagonist : Preset) (s : store) (t : list rnd) :
  assoc name fields = None ->
  inherited name = false ->
  sentenceLoop (JObj fields) (JStr (63%N :: name) :: rest) parts protagonist s t
  = Throw TypeError
  /\ (head name ≠ Some 42%N -> head name ≠ Some 63%N ->
      sentenceLoop (JObj fields) (JStr name :: rest) parts protagonist s t
      = sentenceLoop (JObj fields) rest (parts ++ [JStr name]) protagonist s t)
  /\ (forall r, Qle_bool (1 # 6) (rndQ r) = false ->
      sentenceLoop (JObj fields) (JStr (42%N :: name) :: rest) parts protagonist s (r :: t)
      = sentenceLoop (JObj fields) rest (parts ++ [JStr name]) protagonist s t).
Proof.
  intros Hown Hproto.
  pose proof (jget_undefined fields name Hown Hproto) as Hname.
  assert (Hplain : forall s t,
            bind (plainToken (JObj fields) name parts)
              (fun parts' => sentenceLoop (JObj fields) rest parts' protagonist) s t
            = sentenceLoop (JObj fields) rest (parts ++ [JStr name]) protagonist s t).
  { intros s0 t0. unfold plainToken. rewrite run_bind_assoc.
    by erewrite run_lift by exact Hname. }
  split_and!.
  - cbn [sentenceLoop]. unfold getSection, bind, lift. by rewrite Hname.
  - intros H42 H63. destruct name as [|c name]; [apply Hplain|].
    cbn [sentenceLoop].
    destruct c as [|c]; [apply Hplain|].
    do 6 (destruct c as [c|c|]; try apply Hplain); simpl in *; congruence.
  - intros r Hr. cbn [sentenceLoop]. rewrite run_random, Hr. apply Hplain.
Qed.

(** *** The preset of the first section of a sentence *)

Lemma blank_preset_throws (data : json) (name : jsstring)
  (fields : list (jsstring * json)) (s : store) (t : list rnd) :
  jget data name = Ret (JObj fields) ->
  assoc (js "options") fields = None ->
  assoc [] fields = None ->
  getSection data name blankPreset s t = Throw TypeError.
Proof.
  intros Hname Hopt Hblank. unfold getSection.
  erewrite run_lift by exact Hname.
  erewrite run_lift by (simpl; by rewrite Hopt).
  simpl. unfold getPartial. simpl.
  rewrite run_ret.
  erewrite run_lift by exact Hname.
  erewrite run_lift by (unfold jgetv; simpl; by rewrite Hblank).
  done.
Qed.

(** With the preset [{}] a partial tosses the coin for the gender and picks
    the number among the keys of that gender. *)
Lemma getPartial_noPreset data type s r t p s' t' :
  getPartial data type noPreset s (r :: t) = Ret (p, s', t') ->
  p_gender p = JStr (if Qle_bool (rndQ r) (1 # 2) then js "f" else js "m")
  /\ exists typeObj byGender numbers r2,
       jgetv data type = Ret typeObj
       /\ jgetv typeObj (p_gender p) = Ret byGender
       /\ objectKeys byGender = Ret numbers
       /\ p_number p = match numbers !! floorMul r2 (length numbers) with
                       | Some k => JStr k
                       | None => JUndef
                       end.
Proof.
  unfold getPartial. cbn [noPreset gender number_ nullish].
  rewrite run_bind_assoc, run_random, run_ret. intros Hrun.
  apply bind_Ret in Hrun as (typeObj & s1 & t1 & HtypeObj & Hrun).
  apply lift_Ret in HtypeObj as (x1 & HtypeObj & Heq1).
  apply bind_Ret in Hrun as (byGender & s2 & t2 & HbyGender & Hrun).
  apply lift_Ret in HbyGender as (x2 & HbyGender & Heq2).
  apply bind_Ret in Hrun as (numbers & s3 & t3 & Hnumbers & Hrun).
  apply lift_Ret in Hnumbers as (x3 & Hnumbers & Heq3).
  rewrite run_bind_assoc in Hrun.
  apply bind_Ret in Hrun as (r2 & s4 & t4 & Hr2 & Hrun).
  rewrite run_ret in Hrun.
  repeat (apply bind_Ret in Hrun as (? & ? & ? & _ & Hrun)).
  injection Hrun as <- _ _. cbn [p_gender p_number].
  injection Heq1 as -> _ _. injection Heq2 as -> _ _. injection Heq3 as -> _ _.
  split; [done|]. by exists x1, x2, x3, r2.
Qed.

(** *** Runs of the engine *)

Lemma reaches_trans data s1 tr1 s2 tr2 s3 :
  reaches data s1 tr1 s2 -> reaches data s2 tr2 s3 -> reaches data s1 (tr1 ++ tr2) s3.
Proof.
  induction 1 as [s|s s1 s2 t t1 type word index tr Hdraw Hlast Hrun IH
                 |s s1 s2 tr Hsame Hrun IH]; intros Hnext.
  - done.
  - simpl. eapply reaches_draw; [done|done|by apply IH].
  - eapply reaches_other; [done|by apply IH].
Qed.

Lemma getLoremIpsum_reaches data wordsArr type :
  keeps (reachable data) (getLoremIpsum data wordsArr type).
Proof.
  apply keeps_getLoremIpsum.
  - intros s. exists []. constructor.
  - intros s1 s2 s3 [tr1 H1] [tr2 H2]. exists (tr1 ++ tr2). by eapply reaches_trans.
  - intros ty s t a s' t' Hrun.
    pose proof Hrun as Hret.
    apply getRandomWord_Ret in Hret as (? & len & ? & r & _ & _ & _ & _ & _ & _ & ->).
    exists [(ty, floorMul r len)].
    eapply reaches_draw; [exact Hrun| |constructor].
    rewrite memory_after, decide_True by done. apply remember_last.
  - intros s w _ _. exists []. eapply reaches_other; [|constructor]. done.
Qed.

Lemma setupContent_reaches data wordsArr settings s t content s' t' :
  setupContent data wordsArr settings s t = Ret (content, s', t') ->
  reachable data cleared s'.
Proof.
  unfold setupContent. intros Hrun.
  apply bind_Ret in Hrun as (units & s1 & t1 & Hunits & Hrun).
  injection Hrun as _ <- _.
  unfold arrayFrom in Hunits. destruct (_ <=? _)%Z; [discriminate|].
  eapply (keeps_repeatM (reachable data)); [| | |exact Hunits].
  - intros s0. exists []. constructor.
  - intros s1' s2 s3 [tr1 H1] [tr2 H2]. exists (tr1 ++ tr2). by eapply reaches_trans.
  - apply getLoremIpsum_reaches.
Qed.

(** The bound on the memory holds in every store that [setup] returns. *)
Corollary setupContent_memory data wordsArr settings s t content s' t' type :
  setupContent data wordsArr settings s t = Ret (content, s', t') ->
  length (memory s' type) <= 4.
Proof.
  intros Hrun. apply setupContent_reaches in Hrun as [tr Hrun].
  destruct (reaches_cleared data tr s' type Hrun) as [-> _]. apply lastFour_length.
Qed.

(** *** Word mode always returns *)



(** *** The generated text *)


End Lemmas.

(** ** The engine on the town store *)

(** Six draws of [hats], each accepted at once. *)
Lemma hats_draw (before : list nat) (i : nat) (w : string) :
  getRandomWord townStore hats (hatsAfter before) [draw i 6]
  = Ret (JStr (js w), hatsAfter (before ++ [i]), []) ->
  forall tr s,
    reaches townStore (hatsAfter (before ++ [i])) tr s ->
    reaches townStore (hatsAfter before) ((hats, i) :: tr) s.
Proof.
  intros Hdraw tr s Hrest.
  eapply reaches_draw; [exact Hdraw| |exact Hrest].
  unfold hatsAfter. rewrite foldl_snoc.
  rewrite memory_after, decide_True by done. apply remember_last.
Qed.

Lemma hats_reaches : reaches townStore cleared hatsRun (hatsAfter [0; 1; 2; 3; 4; 5]).
Proof.
  apply (hats_draw [] 0 "stetson"); [by vm_compute|].
  apply (hats_draw [0] 1 "bowler"); [by vm_compute|].
  apply (hats_draw [0; 1] 2 "derby"); [by vm_compute|].
  apply (hats_draw [0; 1; 2] 3 "gambler"); [by vm_compute|].
  apply (hats_draw [0; 1; 2; 3] 4 "sombrero"); [by vm_compute|].
  apply (hats_draw [0; 1; 2; 3; 4] 5 "bonnet"); [by vm_compute|].
  constructor.
Qed.

(** C6 on six draws of a pool of six. *)
Lemma index_recency_witness :
  reaches townStore cleared hatsRun (hatsAfter [0; 1; 2; 3; 4; 5])
  /\ length (memory (hatsAfter [0; 1; 2; 3; 4; 5]) hats) <= 4
  /\ NoDup [1; 2; 3; 4; 5].
Proof.
  pose proof hats_reaches as Hrun. split; [exact Hrun|].
  destruct (index_recency townStore hatsRun _ Hrun) as (Hlen & _ & Hwin).
  split; [apply Hlen|].
  apply (Hwin hats [0] [1; 2; 3; 4; 5] []); [by vm_compute|simpl; lia].
Defined.

(** C2, amended, on the empty pool [boots] and on the pool [hats]. *)
Lemma category_draw_termination_witness :
  getRandomWord townStore (js "boots") cleared [draw 0 1]
  = Ret (JUndef, after cleared (js "boots") 0, [])
  /\ getRandomWord townStore (js "boots") (after cleared (js "boots") 0)
       [draw 0 1; draw 1 2; draw 2 3] = Starved
  /\ exists r, forall t, exists word,
       word ∈ hatPool
       /\ getRandomWord townStore hats (hatsAfter [0; 1; 2; 3]) (r :: t)
          = Ret (word, after (hatsAfter [0; 1; 2; 3]) hats (floorMul r 6), t).
Proof.
  destruct category_draw_termination as [Hempty Hpool].
  destruct (Hempty townStore (js "boots") cleared eq_refl) as [Hfirst _].
  destruct (Hempty townStore (js "boots") (after cleared (js "boots") 0) eq_refl)
    as [_ Hnext].
  split; [apply Hfirst; reflexivity|].
  split; [apply Hnext; apply (bool_decide_unpack _); by vm_compute|].
  destruct (Hpool townStore hats hatPool (hatsAfter [0; 1; 2; 3]) eq_refl)
    as (Hsome & _ & _).
  - simpl. lia.
  - vm_compute. lia.
  - exact Hsome.
Defined.



(** C2 as stated fails: the draw on the empty pool [boots] returns
    [undefined], the sentence prints it as nothing, and no error is raised;
    the next draw on that pool rejects every attempt. *)
Lemma category_draw_counterexample :
  resultOf (getRandomWord townStore (js "boots") cleared [draw 0 1]) = Ret JUndef
  /\ resultOf (generateSentence (H := asciiHost) townStore cleared [draw 1 5; draw 0 1])
     = Ret (js "Nobody wears ")
  /\ getRandomWord townStore (js "boots") (after cleared (js "boots") 0)
       [draw 0 1; draw 1 2; draw 2 3; draw 3 4] = Starved.
Proof. by vm_compute. Qed.

(** C3 as stated fails: the count -3 gives no list item where the count 1
    gives one, and the count 2.5 gives two. *)
Lemma count_normalisation_counterexample :
  omap fst (resultOf (run (H := asciiHost) townStore [] (Fin (-3)) Lists cleared
                        [draw 0 5; draw 0 6]))
  = Ret (article [])
  /\ omap fst (resultOf (run (H := asciiHost) townStore [] (Fin 1) Lists cleared
                           [draw 0 5; draw 0 6]))
     = Ret (article (js "<li>Howdy stetson</li>"))
  /\ omap fst (resultOf (run (H := asciiHost) townStore [] (Fin (5 # 2)) Lists cleared
                           [draw 0 5; draw 0 6; draw 0 5; draw 1 6]))
     = Ret (article (js "<li>Howdy stetson</li><li>Howdy bowler</li>"))
  /\ article [] ≠ article (js "<li>Howdy stetson</li>").
Proof. split_and!; by vm_compute. Qed.

(** C3, amended, on NaN, 0, -3 and 2.5. *)
Lemma count_normalisation_witness :
  orOne NaN = Fin 1
  /\ orOne (Fin 0) = Fin 1
  /\ setupContent (H := asciiHost) townStore townWords
       {| url := []; nbr := orOne (Fin (-3)); type := Lists |} cleared [draw 0 5]
     = Ret ([], cleared, [draw 0 5])
  /\ setupContent (H := asciiHost) townStore townWords
       {| url := []; nbr := orOne (Fin (5 # 2)); type := Lists |} cleared [draw 0 5]
     = setupContent (H := asciiHost) townStore townWords
         {| url := []; nbr := Fin (inject_Z (Qfloor (5 # 2))); type := Lists |} cleared [draw 0 5].
Proof.
  destruct (count_normalisation (H := asciiHost) townStore townWords [] Lists)
    as (Hfalsy & Hneg & Hpos).
  split; [by apply Hfalsy|]. split; [by apply Hfalsy|].
  split; [by apply Hneg|by apply Hpos].
Defined.

(** C4 as stated fails: the store defines neither [yonder] nor [howdy],
    and the optional token [*yonder] and the token [howdy] are emitted. *)
Lemma unresolved_reference_counterexample :
  jget townStore (js "yonder") = Ret JUndef
  /\ resultOf (generateSentence (H := asciiHost) townStore cleared
                 [draw 4 5; draw 0 1; draw 0 6])
     = Ret (js "Yonder stetson")
  /\ jget townStore (js "howdy") = Ret JUndef
  /\ resultOf (generateSentence (H := asciiHost) townStore cleared [draw 0 5; draw 0 6])
     = Ret (js "Howdy stetson").
Proof. by vm_compute. Qed.

(** The names that every object inherits are outside these statements:
    the lookup finds a function, which is no value of the model. *)
Remark inherited_names_are_beyond :
  jget townStore (js "constructor") = Beyond
  /\ jget townStore (js "toString") = Beyond
  /\ resultOf (sentenceLoop (H := asciiHost) townStore [JStr (js "constructor")] []
                 blankPreset cleared [draw 0 1])
     = Beyond.
Proof. by vm_compute. Qed.

(** C4, amended, on the name [outlaws]. *)
Lemma unresolved_reference_witness :
  townStore = JObj townFields
  /\ assoc (js "outlaws") townFields = None
  /\ inherited (js "outlaws") = false
  /\ sentenceLoop (H := asciiHost) townStore [JStr (js "?outlaws"); JStr (js "ride")] []
       blankPreset cleared [] = Throw TypeError
  /\ sentenceLoop (H := asciiHost) townStore [JStr (js "outlaws"); JStr (js "ride")] []
       blankPreset cleared []
     = sentenceLoop (H := asciiHost) townStore [JStr (js "ride")] [JStr (js "outlaws")]
         blankPreset cleared [].
Proof.
  assert (Hown : assoc (js "outlaws") townFields = None) by (by vm_compute).
  assert (Hproto : inherited (js "outlaws") = false) by (by vm_compute).
  split; [reflexivity|]. split; [exact Hown|]. split; [exact Hproto|].
  destruct (unresolved_reference (H := asciiHost) townFields (js "outlaws")
              [JStr (js "ride")] [] blankPreset cleared [] Hown Hproto)
    as (Hsection & Hplain & _).
  split; [exact Hsection|]. by apply Hplain.
Defined.

(** C5. The first section token of a sentence is resolved with the preset
    whose gender and number are the empty string: no coin is tossed, the
    empty string is taken as the gender and the lookup of that gender throws. With the
    preset [{}] the same section tosses the coin. *)
Theorem blank_protagonist_preset :
  resultOf (generateSentence (H := asciiHost) townStore cleared
              [draw 3 5; draw 0 2; draw 3 4; draw 0 1; draw 0 1; draw 0 1])
  = Throw TypeError
  /\ resultOf (getSection (H := asciiHost) townStore (js "protagonists") blankPreset cleared
                 [draw 0 2; draw 3 4; draw 0 1; draw 0 1; draw 0 1])
     = Throw TypeError
  /\ resultOf (getSection (H := asciiHost) townStore (js "protagonists") noPreset cleared
                 [draw 0 2; draw 3 4; draw 0 1; draw 0 1; draw 0 1])
     = Ret {| p_type := JStr (js "persons"); p_text := JStr (js "cowboy");
              p_gender := JStr (js "m"); p_number := JStr (js "single") |}
  /\ resultOf (getSection (H := asciiHost) townStore (js "protagonists") noPreset cleared
                 [draw 0 2; draw 1 5; draw 0 1; draw 0 1; draw 0 1])
     = Ret {| p_type := JStr (js "persons"); p_text := JStr (js "cowgirl");
              p_gender := JStr (js "f"); p_number := JStr (js "single") |}.
Proof. by vm_compute. Qed.

(** C7 on the pool [saloon; gun]. *)
Lemma value_dictionary_draw_witness :
  pick (JStr <$> [js "saloon"; js "gun"]) (draw 0 2) = JStr (js "saloon")
  /\ getRandomNoRepeat (JArr (JStr <$> [js "saloon"; js "gun"])) cleared [draw 0 2]
     = Ret (JStr (js "saloon"), noted cleared (js "saloon"), [])
  /\ getRandomNoRepeat (JArr (JStr <$> [js "saloon"; js "gun"])) (noted cleared (js "saloon"))
       [draw 0 2; draw 1 2]
     = Ret (JStr (js "gun"), noted cleared (js "saloon"), []).
Proof.
  assert (Hpick : pick (JStr <$> [js "saloon"; js "gun"]) (draw 0 2) = JStr (js "saloon"))
    by (by vm_compute).
  split; [exact Hpick|].
  destruct (value_dictionary_draw (H := asciiHost) _ _ cleared _ [] Hpick)
    as (Hfirst & _ & Hagain & _).
  split.
  - apply Hfirst; [apply not_elem_of_empty|simpl; lia].
  - exact (Hagain (noted cleared (js "saloon")) (JStr <$> [js "saloon"; js "gun"])
             (draw 0 2) (draw 1 2) [] (reflexivity _) Hpick).
Defined.

(** C8 on a cowgirl and a cowboy. *)
Lemma merge_rule_witness :
  exists merged,
    mergePartials (H := asciiHost) [cowgirl; cowboy] (js "protagonists")
      (obj [("sep", words [" et "])]%string) cleared [draw 0 1]
    = Ret (merged, cleared, [])
    /\ p_type merged = JStr (js "protagonists")
    /\ p_number merged = JStr (js "plural")
    /\ p_gender merged = JStr (js "m")
    /\ p_text merged = JStr (js "cowgirl et cowboy").
Proof.
  destruct (merge_rule (H := asciiHost) cowgirl [cowboy] (js "protagonists")
              (obj [("sep", words [" et "])]%string) [JStr (js " et ")] cleared [draw 0 1])
    as (merged & Hrun & Htype & Hnumber & Hdiffer & _ & Htext & _).
  - done.
  - by vm_compute.
  - done.
  - repeat constructor; by eexists.
  - repeat constructor; by eexists.
  - simpl. lia.
  - exists merged. split_and!; try done.
    apply Hdiffer. by left.
Defined.

(** C9 as stated fails: for the sentence "Café noir " the line tells 3
    words and 7 letters; the text has 2 white space tokens and 8 letters. *)
Lemma summary_counts_counterexample :
  omap snd (resultOf (run (H := asciiHost) townStore [] (Fin 1) Sentences cleared [draw 2 5]))
  = Ret (js "<p><strong>1 phrases, 3 mots, 7 caract" ++ [232%N] ++ js "res de " ++ [10%N]
           ++ js "      <a href=" ++ dq ++ js "http://sidlipsum.smnarnold.com" ++ dq
           ++ js ">Lee<em>psum</em></a> g" ++ [233%N] ++ js "n" ++ [233%N] ++ js "r" ++ [233%N]
           ++ js "</strong></p>")
  /\ omap fst (resultOf (run (H := asciiHost) townStore [] (Fin 1) Sentences cleared [draw 2 5]))
     = Ret (article cafe)
  /\ countTokens cafe = 2
  /\ countLetters cafe = 8.
Proof. by vm_compute. Qed.

(** C9, amended, on one list item. *)
Lemma summary_counts_witness :
  updateResume (H := asciiHost) (settingsOf 1 Lists) (js "<li>Howdy stetson</li>")
  = js "<p><strong>Une liste " ++ [224%N] ++ js " 1 points, 2 mots, 16 caract" ++ [232%N]
      ++ js "res de " ++ [10%N]
      ++ js "      <a href=" ++ dq ++ js "http://sidlipsum.smnarnold.com" ++ dq
      ++ js ">Lee<em>psum</em></a> g" ++ [233%N] ++ js "n" ++ [233%N] ++ js "r" ++ [233%N]
      ++ js "</strong></p>"
  /\ length (splitWs (js "<li>Howdy stetson</li>")) = countTokens (js "<li>Howdy stetson</li>").
Proof.
  destruct (summary_counts (H := asciiHost) (settingsOf 1 Lists) (js "<li>Howdy stetson</li>"))
    as [Hline Hwords].
  split; [rewrite Hline; by vm_compute|].
  apply Hwords; by vm_compute.
Defined.

(** *** Ligatures

    [ligatures.json] is not part of the sources. Whether [fixLigatures] is
    idempotent depends on its rules: a rule whose pattern does not match its
    replacement can still be applied twice with two results. *)

Example fixLigatures_glyph :
  fixLigatures (H := asciiHost) [(js "oe", [339%N])] (js "coeur noeud")
  = Ret (js "c" ++ [339%N] ++ js "ur n" ++ [339%N] ++ js "ud").
Proof. by vm_compute. Qed.

Remark fixLigatures_rules_matter :
  fixLigatures (H := asciiHost) [(js "oe", js "o")] (js "ooee") = Ret (js "ooe")
  /\ fixLigatures (H := asciiHost) [(js "oe", js "o")] (js "ooe") = Ret (js "oo").
Proof. by vm_compute. Qed.

(** ** Further properties of the code *)

(** *** Draws in a range and in an array *)

(** X1. For [min <= max], [random(min, max)] takes one draw, leaves the
    trackers alone and returns a number of [[min, max]]; every number of
    that range is returned for some draw. *)
Theorem random_in_range (min max : nat) (s : store) (t : list rnd) :
  min <= max ->
  (forall r, exists n,
      randomBetween min max s (r :: t) = Ret (n, s, t) /\ min <= n <= max)
  /\ (forall n, min <= n <= max ->
      exists r, randomBetween min max s (r :: t) = Ret (n, s, t)).
Proof.
  intros Hle. split.
  - intros r. exists (floorMul r (max - min + 1) + min). split; [done|].
    pose proof (floorMul_lt r (max - min + 1)). lia.
  - intros n Hn. exists (draw (n - min) (max - min + 1)).
    unfold randomBetween. rewrite run_random. unfold ret.
    rewrite floorMul_draw by lia. do 3 f_equal. lia.
Qed.

(** X1 on the range of the sentences of a paragraph. *)
Lemma random_in_range_witness :
  (exists n, randomBetween 2 8 cleared [draw 6 7] = Ret (n, cleared, []) /\ 2 <= n <= 8)
  /\ exists r, randomBetween 2 8 cleared [r] = Ret (5, cleared, []).
Proof.
  destruct (random_in_range 2 8 cleared [] ltac:(lia)) as [Hany Hall].
  split; [apply Hany|]. apply Hall. lia.
Defined.

(** X2. On a non-empty array [randomFromArray] returns an element of the
    array, and each element is returned for some draw; on an empty array it
    returns [undefined] without an error; on [undefined] it throws a
    [TypeError]. *)
Theorem randomFromArray_picks (pool : list json) (s : store) (r : rnd) (t : list rnd) :
  (pool ≠ [] ->
   exists x, x ∈ pool /\ randomFromArray (JArr pool) s (r :: t) = Ret (x, s, t))
  /\ (forall x, x ∈ pool ->
      exists r', randomFromArray (JArr pool) s (r' :: t) = Ret (x, s, t))
  /\ randomFromArray (JArr []) s (r :: t) = Ret (JUndef, s, t)
  /\ randomFromArray JUndef s (r :: t) = Throw TypeError.
Proof.
  split_and!; try done.
  - intros Hne. exists (pick pool r). split; [by apply pick_elem_of|done].
  - intros x Hx. apply list_elem_of_lookup in Hx as [i Hi].
    pose proof (lookup_lt_Some _ _ _ Hi) as Hlt.
    exists (draw i (length pool)). rewrite randomFromArray_pool.
    unfold pick. by rewrite floorMul_draw, Hi.
Qed.

(** X2 on the pool of hats. *)
Lemma randomFromArray_picks_witness :
  (exists x, x ∈ hatPool
             /\ randomFromArray (JArr hatPool) cleared [draw 2 6] = Ret (x, cleared, []))
  /\ exists r', randomFromArray (JArr hatPool) cleared [r']
                = Ret (JStr (js "bonnet"), cleared, []).
Proof.
  destruct (randomFromArray_picks hatPool cleared (draw 2 6) []) as (Hin & Hall & _).
  split; [by apply Hin|]. apply Hall.
  by apply (list_elem_of_lookup_2 _ 5).
Defined.

(** *** Cutting an entry into words *)

Lemma splitOn_join sep s : joinWith [sep] (splitOn sep s) = s.
Proof.
  induction s as [|c s IH]; [done|]. simpl.
  destruct (N.eqb_spec c sep) as [->|Hne].
  - pose proof (splitOn_nonempty sep s) as Hne.
    destruct (splitOn sep s) as [|p ps] eqn:E; [done|].
    change (joinWith [sep] ([] :: p :: ps)) with ([] ++ [sep] ++ joinWith [sep] (p :: ps)).
    by rewrite IH.
  - destruct (splitOn sep s) as [|p ps] eqn:E.
    + by apply splitOn_nonempty in E.
    + destruct ps as [|q ps]; simpl in *; by rewrite <- IH.
Qed.

Lemma splitOn_count sep s :
  length (splitOn sep s) = S (length (filter (fun c => c = sep) s)).
Proof.
  induction s as [|c s IH]; [done|]. simpl.
  destruct (N.eqb_spec c sep) as [->|Hne].
  - rewrite filter_cons_True by done. simpl. by rewrite IH.
  - rewrite filter_cons_False by done.
    destruct (splitOn sep s) as [|p ps] eqn:E; [by apply splitOn_nonempty in E|].
    by rewrite <- IH.
Qed.

Section Pool.
Context {H : Host}.

(** X3. A word that [randomWordFromPool] returns is one of the pieces that
    the single spaces cut in a string entry of the pool: it holds no space,
    and the pieces of the entry joined by spaces give the entry back. The
    call takes two draws and leaves the trackers alone. *)
Theorem randomWordFromPool_piece (wordsArr : list json) (s : store) (t : list rnd)
  (w : json) (s' : store) (t' : list rnd) :
  randomWordFromPool wordsArr s t = Ret (w, s', t') ->
  exists item piece r1 r2,
    t = r1 :: r2 :: t' /\ s' = s
    /\ JStr item ∈ wordsArr
    /\ piece ∈ splitOn 32 item
    /\ (32%N ∉ piece)
    /\ joinWith [32%N] (splitOn 32 item) = item
    /\ w = JStr piece.
Proof.
  unfold randomWordFromPool. intros Hrun.
  destruct t as [|r1 t]; [discriminate|].
  rewrite run_randomFromArray in Hrun.
  destruct (pick wordsArr r1) as [| | | |item| |] eqn:Hitem; try discriminate.
  destruct t as [|r2 t]; [discriminate|].
  rewrite randomFromArray_pool in Hrun. injection Hrun as <- <- <-.
  assert (JStr item ∈ wordsArr) as Hin.
  { unfold pick in Hitem.
    destruct (wordsArr !! floorMul r1 (length wordsArr)) eqn:E; simpl in Hitem; [|done].
    subst. by eapply list_elem_of_lookup_2. }
  pose proof (pick_elem_of (JStr <$> splitOn 32 item) r2) as Hpiece.
  apply list_elem_of_fmap in Hpiece as (piece & Hpick & Hpiece).
  2: { intros Hnil. apply fmap_nil_inv in Hnil. by apply splitOn_nonempty in Hnil. }
  exists item, piece, r1, r2. rewrite Hpick. split_and!; try done.
  - by apply (proj1 (Forall_forall _ _) (splitOn_pieces 32 item)).
  - apply splitOn_join.
Qed.

(** X3 on the entry "high noon". *)
Lemma randomWordFromPool_piece_witness :
  randomWordFromPool townWords cleared [draw 0 9; draw 1 2] = Ret (JStr (js "noon"), cleared, [])
  /\ exists item piece r1 r2,
       [draw 0 9; draw 1 2] = [r1; r2] /\ cleared = cleared
       /\ JStr item ∈ townWords
       /\ piece ∈ splitOn 32 item
       /\ (32%N ∉ piece)
       /\ joinWith [32%N] (splitOn 32 item) = item
       /\ JStr (js "noon") = JStr piece.
Proof.
  assert (Hrun : randomWordFromPool townWords cleared [draw 0 9; draw 1 2]
                 = Ret (JStr (js "noon"), cleared, [])) by (by vm_compute).
  split; [exact Hrun|]. exact (randomWordFromPool_piece _ _ _ _ _ _ Hrun).
Defined.

(** *** A draw from a pool *)

(** X4. A draw of a category whose pool is a non-empty array returns an
    entry of the pool, the one at the index it records; it leaves the value
    dictionary and the memories of the other categories alone. *)
Theorem getRandomWord_entry (data : json) (type : jsstring) (pool : list json)
  (s : store) (t : list rnd) (word : json) (s' : store) (t' : list rnd) :
  jget data type = Ret (JArr pool) ->
  pool ≠ [] ->
  getRandomWord data type s t = Ret (word, s', t') ->
  word ∈ pool
  /\ usedDictionary s' = usedDictionary s
  /\ (forall other, other ≠ type -> memory s' other = memory s other)
  /\ exists index,
       pool !! index = Some word /\ last (memory s' type) = Some index.
Proof.
  intros Hpool Hne Hrun.
  apply getRandomWord_Ret in Hrun
    as (list & len & pre & r & Hlist & Hlen & _ & _ & _ & Hword & ->).
  rewrite Hpool in Hlist. injection Hlist as <-.
  simpl in Hlen. injection Hlen as <-. simpl in Hword.
  destruct (lookup_lt_is_Some_2 pool (floorMul r (length pool))) as [x Hx].
  { apply floorMul_lt. destruct pool; [done|simpl; lia]. }
  rewrite Hx in Hword. injection Hword as <-.
  split_and!.
  - by eapply list_elem_of_lookup_2.
  - done.
  - intros other Hother. rewrite memory_after. by rewrite decide_False.
  - exists (floorMul r (length pool)). split; [done|].
    rewrite memory_after, decide_True by done. apply remember_last.
Qed.

(** X4 on one draw of a hat. *)
Lemma getRandomWord_entry_witness :
  getRandomWord townStore hats cleared [draw 2 6] = Ret (JStr (js "derby"), hatsAfter [2], [])
  /\ JStr (js "derby") ∈ hatPool
  /\ last (memory (hatsAfter [2]) hats) = Some 2.
Proof.
  assert (Hrun : getRandomWord townStore hats cleared [draw 2 6]
                 = Ret (JStr (js "derby"), hatsAfter [2], [])) by (by vm_compute).
  split; [exact Hrun|].
  destruct (getRandomWord_entry townStore hats hatPool _ _ _ _ _ eq_refl
              ltac:(done) Hrun) as (Hin & _ & _ & index & Hindex & Hlast).
  split; [exact Hin|]. by vm_compute.
Defined.

(** *** A draw of a value *)

(** X5. On a non-empty pool of strings [getRandomNoRepeat] returns a
    string of the pool after one or two draws and leaves the index memory
    alone; on an empty pool it throws a [TypeError]. *)
Theorem getRandomNoRepeat_value (pool : list json) (s : store) (r1 r2 : rnd)
  (t : list rnd) :
  pool ≠ [] ->
  Forall (fun v => isString v = true) pool ->
  (exists w s' t',
      getRandomNoRepeat (JArr pool) s (r1 :: r2 :: t) = Ret (JStr w, s', t')
      /\ JStr w ∈ pool
      /\ usedWords s' = usedWords s
      /\ (t' = r2 :: t \/ t' = t))
  /\ getRandomNoRepeat (JArr []) s (r1 :: r2 :: t) = Throw TypeError.
Proof.
  intros Hne Hall. split; [|done].
  assert (Hstr : forall r, exists w, pick pool r = JStr w /\ JStr w ∈ pool).
  { intros r. pose proof (pick_elem_of pool r Hne) as Hin.
    pose proof (proj1 (Forall_forall _ _) Hall _ Hin) as Hs.
    destruct (pick pool r); try discriminate. by eexists. }
  destruct (Hstr r1) as (w1 & Hw1 & Hin1). destruct (Hstr r2) as (w2 & Hw2 & Hin2).
  unfold getRandomNoRepeat. rewrite run_randomFromArray, Hw1.
  destruct (negb (bool_decide (w1 ∈ usedDictionary s)) && (3 <? length w1)).
  - exists w1. eexists _, _. split_and!; [done|done|done|by left].
  - rewrite randomFromArray_pool, Hw2.
    exists w2. eexists _, _. split_and!; [done|done|done|by right].
Qed.

(** X5 on the pool [saloon; gun]. *)
Lemma getRandomNoRepeat_value_witness :
  exists w s' t',
    getRandomNoRepeat (JArr (JStr <$> [js "saloon"; js "gun"])) cleared
      [draw 1 2; draw 0 2] = Ret (JStr w, s', t')
    /\ JStr w ∈ (JStr <$> [js "saloon"; js "gun"])
    /\ usedWords s' = usedWords cleared
    /\ (t' = [draw 0 2] \/ t' = []).
Proof.
  apply (getRandomNoRepeat_value (JStr <$> [js "saloon"; js "gun"]) cleared
           (draw 1 2) (draw 0 2) []); [done|by repeat constructor].
Defined.

End Pool.

(** *** Pools that the memory exhausts *)

Lemma floorMul_range r pool : floorMul r (length pool) < indexRange pool.
Proof.
  unfold indexRange. destruct pool as [|x pool].
  - simpl. rewrite floorMul_0. lia.
  - pose proof (floorMul_lt r (length (x :: pool))). simpl in *. lia.
Qed.

Lemma reaches_indices data s tr s' type pool :
  reaches data s tr s' ->
  jget data type = Ret (JArr pool) ->
  Forall (fun i => i < indexRange pool) (indicesOf type tr).
Proof.
  intros Hrun Hpool.
  induction Hrun as [s|s s1 s2 t t1 type' word index tr Hdraw Hlast Hrun IH
                    |s s1 s2 tr Hsame Hrun IH]; [constructor| |done].
  destruct (decide (type' = type)) as [->|Hne].
  - rewrite indicesOf_cons_eq. constructor; [|done].
    apply getRandomWord_Ret in Hdraw
      as (list & len & pre & r & Hlist & Hlen & _ & _ & _ & _ & ->).
    rewrite Hpool in Hlist. injection Hlist as <-. simpl in Hlen. injection Hlen as <-.
    rewrite memory_after, decide_True in Hlast by done.
    rewrite remember_last in Hlast. injection Hlast as <-. apply floorMul_range.
  - by rewrite indicesOf_cons_ne.
Qed.

Lemma NoDup_below (l : list nat) n :
  NoDup l -> Forall (fun i => i < n) l -> length l <= n.
Proof.
  intros Hnd Hall.
  assert (l ⊆+ seq 0 n) as Hsub; [|apply submseteq_length in Hsub; by rewrite length_seq in Hsub].
  apply NoDup_submseteq; [done|].
  intros x Hx. apply elem_of_seq. apply (proj1 (Forall_forall _ _) Hall) in Hx. lia.
Qed.

Lemma NoDup_below_full (l : list nat) n :
  NoDup l -> Forall (fun i => i < n) l -> length l = n ->
  forall k, k < n -> k ∈ l.
Proof.
  intros Hnd Hall Hlen k Hk.
  assert (l ≡ₚ seq 0 n) as Hperm.
  { apply submseteq_length_Permutation.
    - apply NoDup_submseteq; [done|]. intros x Hx. apply elem_of_seq.
      apply (proj1 (Forall_forall _ _) Hall) in Hx. lia.
    - rewrite length_seq. lia. }
  rewrite Hperm. apply elem_of_seq. lia.
Qed.

(** X6. In one run a category whose pool has at most 4 entries is drawn
    at most as many times as it has entries (once when it has none), and
    after that many draws no further draw of it returns. *)
Theorem small_pool_exhausted (data : json) (tr : list (jsstring * nat)) (s : store)
  (type : jsstring) (pool : list json) :
  reaches data cleared tr s ->
  jget data type = Ret (JArr pool) ->
  length pool <= 4 ->
  length (indicesOf type tr) <= indexRange pool
  /\ (length (indicesOf type tr) = indexRange pool ->
      forall t, getRandomWord data type s t = Starved).
Proof.
  intros Hrun Hpool Hsmall.
  pose proof (reaches_indices _ _ _ _ _ _ Hrun Hpool) as Hbelow.
  destruct (reaches_cleared data tr s type Hrun) as [Hmem Hfresh].
  assert (Hrange : indexRange pool <= 4) by (unfold indexRange; lia).
  split.
  - destruct (decide (length (indicesOf type tr) <= indexRange pool)) as [|Hmore]; [done|].
    exfalso.
    pose proof (take_drop (S (indexRange pool)) (indicesOf type tr)) as Hsplit.
    assert (NoDup (take (S (indexRange pool)) (indicesOf type tr))) as Hnd.
    { apply (freshRun_window _ [] _ (drop (S (indexRange pool)) (indicesOf type tr)) Hfresh).
      - by rewrite Hsplit.
      - rewrite length_take. lia. }
    apply (NoDup_below _ (indexRange pool)) in Hnd.
    + rewrite length_take in Hnd. lia.
    + by apply Forall_take.
  - intros Hfull t.
    assert (NoDup (indicesOf type tr)) as Hnd.
    { apply (freshRun_window _ [] _ [] Hfresh); [by rewrite app_nil_r|lia]. }
    assert (memory s type = indicesOf type tr) as Hall.
    { rewrite Hmem. unfold lastFour.
      replace (length (indicesOf type tr) - 4) with 0 by lia. apply drop_0. }
    apply (getRandomWord_starved data type s (JArr pool) (length pool)); [done|done|].
    apply Forall_forall. intros r _. rewrite Hall.
    apply (NoDup_below_full _ (indexRange pool)); [done|done|done|apply floorMul_range].
Qed.

(** X7. For a pool of exactly 5 entries the draws of one run repeat with
    period 5: each index is the one recorded five draws before. *)
Theorem pool_of_five_cycles (data : json) (tr : list (jsstring * nat)) (s : store)
  (type : jsstring) (pool : list json) (pre mid post : list nat) (a f : nat) :
  reaches data cleared tr s ->
  jget data type = Ret (JArr pool) ->
  length pool = 5 ->
  indicesOf type tr = pre ++ a :: mid ++ f :: post ->
  length mid = 4 ->
  f = a.
Proof.
  intros Hrun Hpool Hfive Heq Hmid.
  pose proof (reaches_indices _ _ _ _ _ _ Hrun Hpool) as Hbelow.
  destruct (reaches_cleared data tr s type Hrun) as [_ Hfresh].
  assert (indexRange pool = 5) as Hrange by (unfold indexRange; lia).
  rewrite Hrange, Heq in Hbelow.
  assert (NoDup (a :: mid)) as Hfirst.
  { apply (freshRun_window _ pre _ (f :: post) Hfresh).
    - by rewrite Heq.
    - simpl. lia. }
  assert (NoDup (mid ++ [f])) as Hnext.
  { apply (freshRun_window _ (pre ++ [a]) _ post Hfresh).
    - rewrite Heq. by rewrite <- !app_assoc.
    - rewrite length_app. simpl. lia. }
  apply Forall_app in Hbelow as [_ Hbelow].
  apply Forall_cons in Hbelow as [Ha Hbelow].
  apply Forall_app in Hbelow as [Hmids Hbelow].
  apply Forall_cons in Hbelow as [Hf _].
  assert (f ∈ a :: mid) as Hin.
  { apply (NoDup_below_full _ 5); [done|by constructor|simpl; lia|done]. }
  apply elem_of_cons in Hin as [->|Hin]; [done|].
  apply NoDup_app in Hnext as (_ & Hdisj & _).
  exfalso. apply (Hdisj f Hin). by apply list_elem_of_singleton.
Qed.

(** *** What a whole run keeps *)

Section Run.
Context {H : Host}.

Lemma recorded_draw data type (before : list nat) (i n : nat) (w : json) :
  getRandomWord data type (recorded type before) [draw i n]
  = Ret (w, recorded type (before ++ [i]), []) ->
  forall tr s,
    reaches data (recorded type (before ++ [i])) tr s ->
    reaches data (recorded type before) ((type, i) :: tr) s.
Proof.
  intros Hdraw tr s Hrest.
  eapply reaches_draw; [exact Hdraw| |exact Hrest].
  unfold recorded. rewrite foldl_snoc.
  rewrite memory_after, decide_True by done. apply remember_last.
Qed.

(** X8. In the store that [setup] comes back with, the memory of every
    category holds at most 4 indices and no index twice. When the pool of
    the category is not empty, every index of the memory is an index of the
    pool. When the pool is empty, the memory is empty or holds the index 0
    alone, which is no index of the pool. *)
Theorem setup_memory_invariant (data : json) (wordsArr : list json)
  (settings : Settings) (s : store) (t : list rnd) (content : jsstring)
  (s' : store) (t' : list rnd) (type : jsstring) :
  setupContent data wordsArr settings s t = Ret (content, s', t') ->
  length (memory s' type) <= 4
  /\ NoDup (memory s' type)
  /\ (forall pool, jget data type = Ret (JArr pool) -> pool ≠ [] ->
      Forall (fun i => i < length pool) (memory s' type))
  /\ (jget data type = Ret (JArr []) ->
      memory s' type = [] \/ memory s' type = [0]).
Proof.
  intros Hrun. apply setupContent_reaches in Hrun as [tr Hrun].
  destruct (reaches_cleared data tr s' type Hrun) as [Hmem Hfresh].
  assert (NoDup (memory s' type)) as Hnd.
  { rewrite Hmem.
    apply (freshRun_window _ (take (length (indicesOf type tr) - 4) (indicesOf type tr))
             _ [] Hfresh).
    + unfold lastFour. by rewrite app_nil_r, take_drop.
    + pose proof (lastFour_length (indicesOf type tr)). lia. }
  assert (forall pool, jget data type = Ret (JArr pool) ->
            Forall (fun i => i < indexRange pool) (memory s' type)) as Hrange.
  { intros pool Hpool. rewrite Hmem. unfold lastFour. apply Forall_drop.
    by eapply reaches_indices. }
  split_and!.
  - rewrite Hmem. apply lastFour_length.
  - exact Hnd.
  - intros pool Hpool Hne. specialize (Hrange pool Hpool).
    assert (indexRange pool = length pool) as <-; [|done].
    unfold indexRange. destruct pool; [done|simpl; lia].
  - intros Hpool. specialize (Hrange [] Hpool). unfold indexRange in Hrange. simpl in Hrange.
    destruct (memory s' type) as [|i [|j l]]; [by left| |].
    + right. apply Forall_cons in Hrange as [Hi _]. f_equal. lia.
    + exfalso. apply Forall_cons in Hrange as [Hi Hrange].
      apply Forall_cons in Hrange as [Hj _].
      apply NoDup_cons in Hnd as [Hnotin _]. apply Hnotin.
      replace i with j by lia. left.
Qed.

Lemma getLoremIpsum_keeps_long data wordsArr type :
  keeps keepsLong (getLoremIpsum data wordsArr type).
Proof.
  apply keeps_getLoremIpsum.
  - by intros s Hs.
  - intros s1 s2 s3 H12 H23 Hs. by apply H23, H12.
  - intros ty s t a s' t' Hrun Hs.
    apply getRandomWord_Ret in Hrun as (? & ? & ? & ? & _ & _ & _ & _ & _ & _ & ->).
    exact Hs.
  - intros s w _ Hlong Hs x Hx. simpl in Hx.
    apply elem_of_union in Hx as [Hx|Hx]; [by apply Hs|].
    apply elem_of_singleton in Hx as ->. done.
Qed.

(** X9. In the store that [setup] comes back with, every value of the
    used-value dictionary is longer than 3 units. *)
Theorem dictionary_holds_long_values (data : json) (wordsArr : list json)
  (settings : Settings) (s : store) (t : list rnd) (content : jsstring)
  (s' : store) (t' : list rnd) (w : jsstring) :
  setupContent data wordsArr settings s t = Ret (content, s', t') ->
  w ∈ usedDictionary s' ->
  3 < length w.
Proof.
  unfold setupContent. intros Hrun.
  apply bind_Ret in Hrun as (units & s1 & t1 & Hunits & Hrun).
  injection Hrun as _ <- _.
  unfold arrayFrom in Hunits. destruct (_ <=? _)%Z; [discriminate|].
  revert w. change (longValues s1).
  eapply (keeps_repeatM keepsLong); [| | |exact Hunits|].
  - by intros s0 Hs.
  - intros s1' s2 s3 H12 H23 Hs. by apply H23, H12.
  - apply getLoremIpsum_keeps_long.
  - intros w Hw. by apply not_elem_of_empty in Hw.
Qed.

End Run.

(** X6 on a pool of two spurs. *)
Lemma small_pool_exhausted_witness :
  reaches spurStore cleared [(js "spurs", 1); (js "spurs", 0)] (recorded (js "spurs") [1; 0])
  /\ length (indicesOf (js "spurs") [(js "spurs", 1); (js "spurs", 0)]) <= 2
  /\ getRandomWord spurStore (js "spurs") (recorded (js "spurs") [1; 0])
       [draw 0 2; draw 1 2; draw 1 3] = Starved.
Proof.
  assert (Hrun : reaches spurStore cleared [(js "spurs", 1); (js "spurs", 0)]
                   (recorded (js "spurs") [1; 0])).
  { apply (recorded_draw spurStore (js "spurs") [] 1 2 (JStr (js "jangle"))); [by vm_compute|].
    apply (recorded_draw spurStore (js "spurs") [1] 0 2 (JStr (js "jingle"))); [by vm_compute|].
    constructor. }
  split; [exact Hrun|].
  destruct (small_pool_exhausted spurStore _ _ (js "spurs")
              ((fun w => JStr (js w)) <$> ["jingle"; "jangle"]%string) Hrun eq_refl)
    as [Hmost Hstuck]; [simpl; lia|].
  split; [exact Hmost|]. by apply Hstuck.
Defined.

(** X7 on six draws of a pool of five guns. *)
Lemma pool_of_five_cycles_witness :
  reaches gunStore cleared ((fun i => (js "guns", i)) <$> [3; 0; 4; 1; 2; 3])
    (recorded (js "guns") [3; 0; 4; 1; 2; 3])
  /\ 3 = 3.
Proof.
  assert (Hrun : reaches gunStore cleared ((fun i => (js "guns", i)) <$> [3; 0; 4; 1; 2; 3])
                   (recorded (js "guns") [3; 0; 4; 1; 2; 3])).
  { apply (recorded_draw gunStore (js "guns") [] 3 5 (JStr (js "remington"))); [by vm_compute|].
    apply (recorded_draw gunStore (js "guns") [3] 0 5 (JStr (js "colt"))); [by vm_compute|].
    apply (recorded_draw gunStore (js "guns") [3; 0] 4 5 (JStr (js "sharps"))); [by vm_compute|].
    apply (recorded_draw gunStore (js "guns") [3; 0; 4] 1 5 (JStr (js "derringer")));
      [by vm_compute|].
    apply (recorded_draw gunStore (js "guns") [3; 0; 4; 1] 2 5 (JStr (js "winchester")));
      [by vm_compute|].
    apply (recorded_draw gunStore (js "guns") [3; 0; 4; 1; 2] 3 5 (JStr (js "remington")));
      [by vm_compute|].
    constructor. }
  split; [exact Hrun|].
  apply (pool_of_five_cycles gunStore _ _ (js "guns")
           gunPool
           [] [0; 4; 1; 2] [] 3 3 Hrun eq_refl); [done|by vm_compute|done].
Defined.

(** X8 on two sentences with hats, and on one with the empty pool of
    boots. *)
Lemma setup_memory_invariant_witness :
  (setupContent (H := asciiHost) townStore townWords (settingsOf 2 Sentences) cleared
     [draw 0 5; draw 0 6; draw 0 5; draw 1 6]
   = Ret (js "Howdy stetson Howdy bowler ", hatsAfter [0; 1], [])
   /\ length (memory (hatsAfter [0; 1]) hats) <= 4
   /\ NoDup (memory (hatsAfter [0; 1]) hats)
   /\ Forall (fun i => i < length hatPool) (memory (hatsAfter [0; 1]) hats))
  /\ (setupContent (H := asciiHost) townStore townWords (settingsOf 1 Sentences) cleared
        [draw 1 5; draw 0 1]
      = Ret (js "Nobody wears  ", recorded (js "boots") [0], [])
      /\ (memory (recorded (js "boots") [0]) (js "boots") = []
          \/ memory (recorded (js "boots") [0]) (js "boots") = [0])).
Proof.
  assert (Hrun : setupContent (H := asciiHost) townStore townWords (settingsOf 2 Sentences)
                   cleared [draw 0 5; draw 0 6; draw 0 5; draw 1 6]
                 = Ret (js "Howdy stetson Howdy bowler ", hatsAfter [0; 1], []))
    by (by vm_compute).
  assert (Hboots : setupContent (H := asciiHost) townStore townWords (settingsOf 1 Sentences)
                     cleared [draw 1 5; draw 0 1]
                   = Ret (js "Nobody wears  ", recorded (js "boots") [0], []))
    by (by vm_compute).
  split.
  - split; [exact Hrun|].
    destruct (setup_memory_invariant (H := asciiHost) _ _ _ _ _ _ _ _ hats Hrun)
      as (Hlen & Hnd & Hpool & _).
    split_and!; [exact Hlen|exact Hnd|].
    apply Hpool; [by vm_compute|done].
  - split; [exact Hboots|].
    destruct (setup_memory_invariant (H := asciiHost) _ _ _ _ _ _ _ _ (js "boots") Hboots)
      as (_ & _ & _ & Hempty).
    apply Hempty. by vm_compute.
Defined.

(** X9 on a sentence with a section. *)
Lemma dictionary_holds_long_values_witness :
  setupContent (H := asciiHost) plainStore [] (settingsOf 1 Sentences) cleared
    [draw 0 1; draw 0 1; draw 0 2]
  = Ret (js "Cowboy rides ", noted cleared (js "cowboy"), [])
  /\ js "cowboy" ∈ usedDictionary (noted cleared (js "cowboy"))
  /\ 3 < length (js "cowboy").
Proof.
  assert (Hrun : setupContent (H := asciiHost) plainStore [] (settingsOf 1 Sentences) cleared
                   [draw 0 1; draw 0 1; draw 0 2]
                 = Ret (js "Cowboy rides ", noted cleared (js "cowboy"), []))
    by (by vm_compute).
  assert (Hin : js "cowboy" ∈ usedDictionary (noted cleared (js "cowboy"))).
  { simpl. apply elem_of_union_r. by apply elem_of_singleton. }
  split; [exact Hrun|]. split; [exact Hin|].
  exact (dictionary_holds_long_values (H := asciiHost) _ _ _ _ _ _ _ _ _ Hrun Hin).
Defined.

(** *** Agreement with the preset *)

Section Agreement.
Context {H : Host}.






End Agreement.


(** *** The parts of a sentence *)

Section Parts.
Context {H : Host}.

Lemma plainToken_Ret data token parts s t parts' s' t' :
  plainToken data token parts s t = Ret (parts', s', t') ->
  exists part, parts' = parts ++ [part].
Proof.
  unfold plainToken. intros Hrun.
  apply bind_Ret in Hrun as (category & s1 & t1 & _ & Hrun).
  destruct (truthy category).
  - apply bind_Ret in Hrun as (word & s2 & t2 & _ & Hrun).
    injection Hrun as <- _ _. by eexists.
  - injection Hrun as <- _ _. by eexists.
Qed.

(** X11. The loop of [generateSentence] only appends to the parts, at most
    one part for each token and exactly one for each token that is not
    optional. *)
Theorem sentence_parts (data : json) (tokens parts : list json) (protagonist : Preset)
  (s : store) (t : list rnd) (parts' : list json) (s' : store) (t' : list rnd) :
  sentenceLoop data tokens parts protagonist s t = Ret (parts', s', t') ->
  exists added,
    parts' = parts ++ added
    /\ length tokens - length (filter (fun k => isOptional k = true) tokens)
       <= length added <= length tokens.
Proof.
  revert parts protagonist s t.
  induction tokens as [|tok rest IH]; intros parts protagonist s t Hrun.
  - injection Hrun as <- _ _. exists []. by rewrite app_nil_r.
  - assert (Hplain : forall name parts s t,
              bind (plainToken data name parts)
                (fun parts1 => sentenceLoop data rest parts1 protagonist) s t
              = Ret (parts', s', t') ->
              exists added,
                parts' = parts ++ added
                /\ length rest - length (filter (fun k => isOptional k = true) rest) < length added
                /\ length added <= S (length rest)).
    { intros name parts0 s0 t0 Hrun0.
      apply bind_Ret in Hrun0 as (parts1 & s1 & t1 & Hpush & Hrun0).
      apply plainToken_Ret in Hpush as [part ->].
      apply IH in Hrun0 as (added & -> & Hlen).
      exists (part :: added). rewrite <- app_assoc. split; [done|]. simpl. lia. }
    destruct tok as [| | | |token| |]; try discriminate.
    cbn [sentenceLoop] in Hrun.
    destruct token as [|c name].
    { apply Hplain in Hrun as (added & -> & Hlen). exists added.
      split; [done|]. rewrite filter_cons_False by done. simpl. lia. }
    destruct (decide (c = 42%N)) as [->|H42].
    { apply bind_Ret in Hrun as (r & s1 & t1 & _ & Hrun).
      rewrite filter_cons_True by done. simpl.
      destruct (Qle_bool (1 # 6) (rndQ r)).
      - apply IH in Hrun as (added & -> & Hlen). exists added. split; [done|]. lia.
      - apply Hplain in Hrun as (added & -> & Hlen). exists added. split; [done|]. lia. }
    rewrite filter_cons_False by (simpl; by rewrite (proj2 (N.eqb_neq c 42))).
    destruct (decide (c = 63%N)) as [->|H63].
    { apply bind_Ret in Hrun as (section & s1 & t1 & _ & Hrun).
      apply IH in Hrun as (added & -> & Hlen).
      exists (p_text section :: added). rewrite <- app_assoc. split; [done|]. simpl. lia. }
    assert (bind (plainToken data (c :: name) parts)
              (fun parts1 => sentenceLoop data rest parts1 protagonist) s t
            = Ret (parts', s', t')) as Hrun'.
    { rewrite <- Hrun. destruct c as [|c]; [done|].
      do 6 (destruct c as [c|c|]; try done). }
    apply Hplain in Hrun' as (added & -> & Hlen). exists added.
    split; [done|]. simpl. lia.
Qed.

End Parts.

(** X11 on an optional token that is skipped. *)
Lemma sentence_parts_witness :
  sentenceLoop (H := asciiHost) townStore [JStr (js "*yonder"); JStr (js "hats")] []
    blankPreset cleared [draw 1 2; draw 0 6]
  = Ret ([JStr (js "stetson")], hatsAfter [0], [])
  /\ exists added,
       [JStr (js "stetson")] = [] ++ added /\ 2 - 1 <= length added <= 2.
Proof.
  assert (Hrun : sentenceLoop (H := asciiHost) townStore
                   [JStr (js "*yonder"); JStr (js "hats")] [] blankPreset cleared
                   [draw 1 2; draw 0 6]
                 = Ret ([JStr (js "stetson")], hatsAfter [0], [])) by (by vm_compute).
  split; [exact Hrun|].
  exact (sentence_parts (H := asciiHost) _ _ _ _ _ _ _ _ _ Hrun).
Defined.

Section Post.
Context {H : Host}.

(** *** Ligature rules in sequence *)

Lemma fixLigatures_from (rules : list (jsstring * jsstring)) (acc : outcome jsstring) :
  foldl (fun acc rule => a <~ acc ; regexReplaceAll rule.1 rule.2 a) acc rules
  = (a <~ acc ; fixLigatures rules a).
Proof.
  revert acc. induction rules as [|rule rules IH]; intros acc.
  - by destruct acc.
  - simpl. rewrite IH. destruct acc as [a| | |]; try done.
    simpl. unfold fixLigatures. simpl. by rewrite IH.
Qed.

(** X12. The rules of [fixLigatures] apply in order, each to the result of
    the one before: two lists of rules in a row are the first list and then
    the second, an error of a rule ends the whole, and an empty list of
    rules returns the text as it is. *)
Theorem fixLigatures_in_order (rules1 rules2 : list (jsstring * jsstring))
  (str : jsstring) :
  fixLigatures (rules1 ++ rules2) str
  = (a <~ fixLigatures rules1 str ; fixLigatures rules2 a)
  /\ fixLigatures [] str = Ret str
  /\ (forall pattern replacement,
        fixLigatures ((pattern, replacement) :: rules2) str
        = (a <~ regexReplaceAll pattern replacement str ; fixLigatures rules2 a)).
Proof.
  split_and!.
  - unfold fixLigatures at 1. rewrite foldl_app. by rewrite fixLigatures_from.
  - done.
  - intros pattern replacement. unfold fixLigatures at 1. simpl.
    by rewrite fixLigatures_from.
Qed.

(** *** The figures of the summary line *)

(** X13. The word figure of the summary, the number of pieces of the text
    cut at white space, is the number of white space tokens, plus one when
    the text is empty or starts with white space, plus one when it ends
    with white space. *)
Theorem word_figure (text : jsstring) :
  length (splitWs text)
  = countTokens text
    + (if bool_decide (text = []) || startsWithWs text then 1 else 0)
    + (if endsWithWs text then 1 else 0).
Proof.
  unfold splitWs, countTokens.
  rewrite splitWsFrom_length, tokensFrom_start.
  assert (endsInWs false text = endsWithWs text) as ->.
  { unfold endsInWs, endsWithWs. by destruct (last text). }
  destruct text as [|c text]; [done|].
  rewrite bool_decide_eq_false_2 by done. simpl.
  destruct (isWs c); simpl; lia.
Qed.

Lemma countAsciiLetters_app a b :
  countAsciiLetters (a ++ b) = countAsciiLetters a + countAsciiLetters b.
Proof. unfold countAsciiLetters. by rewrite filter_app, length_app. Qed.

Lemma letters_of_units (type : IpsumType) (units : list jsstring) :
  countAsciiLetters (concat (wrap type <$> units))
  = sum_list (countAsciiLetters <$> units) + markupLetters type * length units.
Proof.
  induction units as [|u units IH]; [by destruct type|].
  cbn [fmap list_fmap concat sum_list sum_list_with length].
  rewrite countAsciiLetters_app. fold (wrap type <$> units). rewrite IH.
  assert (countAsciiLetters (wrap type u) = countAsciiLetters u + markupLetters type) as ->.
  { assert (countAsciiLetters (js "<p>") = 1) as Hp by reflexivity.
    assert (countAsciiLetters (js "</p>") = 1) as Hp' by reflexivity.
    assert (countAsciiLetters (js "<li>") = 2) as Hli by reflexivity.
    assert (countAsciiLetters (js "</li>") = 2) as Hli' by reflexivity.
    assert (countAsciiLetters (js " ") = 0) as Hsp by reflexivity.
    destruct type; unfold wrap, markupLetters; rewrite ?countAsciiLetters_app;
      rewrite ?Hp, ?Hp', ?Hli, ?Hli', ?Hsp; lia. }
  rewrite Nat.mul_succ_r. unfold id.
  generalize (markupLetters type * length units). intros k. lia.
Qed.

Lemma updateResume_summaryLine (settings : Settings) (text : jsstring) :
  updateResume settings text
  = summaryLine settings (length (splitWs text)) (countAsciiLetters text).
Proof.
  unfold updateResume, summaryLine, nounPhrase, attribution, countAsciiLetters.
  rewrite stripNonLetters_filter.
  destruct (type settings); by rewrite <- ?app_assoc.
Qed.

(** X14. When the ligature rules leave the generated text as it is, the
    letter figure that [setup] writes into the summary counts the letters
    of the markup: it is the sum of the letters of the units of the run,
    plus 2 for each paragraph and 4 for each list item. *)
Theorem letter_figure_counts_markup (data : json) (ligatures : list (jsstring * jsstring))
  (wordsArr : list json) (settings : Settings) (n : nat) (s : store) (t : list rnd)
  (content : jsstring) (s' : store) (t' : list rnd) :
  nbr settings = Fin (inject_Z (Z.of_nat n)) ->
  setupContent data wordsArr settings s t = Ret (content, s', t') ->
  fixLigatures ligatures content = Ret content ->
  exists units,
    length units = n
    /\ chain (unitOf data wordsArr (type settings)) cleared t units s' t'
    /\ content = concat (wrap (type settings) <$> units)
    /\ setup data ligatures wordsArr settings s t
       = Ret ((article content,
               summaryLine settings (length (splitWs content))
                 (sum_list (countAsciiLetters <$> units)
                  + markupLetters (type settings) * n)),
              s', t').
Proof.
  intros Hnbr Hrun Hfixed.
  destruct (setupContent_units data wordsArr settings n s t content s' t' Hnbr Hrun)
    as (units & Hlen & Hchain & Hcontent).
  exists units. split_and!; try done.
  unfold setup. unfold bind at 1. rewrite Hrun.
  erewrite run_lift by exact Hfixed. unfold ret, article.
  rewrite updateResume_summaryLine.
  rewrite Hcontent at 3. by rewrite letters_of_units, Hlen.
Qed.

(** *** Counts that no array can hold *)

(** X15. A count of [2^32] or more, and the count [Infinity], make
    [setup] throw a [RangeError] before any unit is generated; the count
    [-Infinity] gives the empty text. *)
Theorem huge_count_throws (data : json) (wordsArr : list json) (u : jsstring)
  (ty : IpsumType) (s : store) (t : list rnd) :
  (forall q, (2 ^ 32 <= Qfloor q)%Z ->
     setupContent data wordsArr {| url := u; nbr := orOne (Fin q); type := ty |} s t
     = Throw RangeError)
  /\ setupContent data wordsArr {| url := u; nbr := orOne (Inf false); type := ty |} s t
     = Throw RangeError
  /\ setupContent data wordsArr {| url := u; nbr := orOne (Inf true); type := ty |} s t
     = Ret ([], cleared, t).
Proof.
  split_and!; [|done|done].
  intros q Hq. unfold setupContent, arrayFrom, bind, orOne. cbn [truthyNumber].
  assert (Qeq_bool q 0 = false) as ->.
  { apply Qeq_bool_false_lt. right. apply Qlt_le_trans with (inject_Z (Qfloor q)).
    - change 0%Q with (inject_Z 0). rewrite <- Zlt_Qlt. lia.
    - apply Qfloor_le. }
  cbn [negb nbr ToLength].
  rewrite (proj2 (Z.leb_le _ _)) by lia. done.
Qed.

(** *** The probability of a sub-component *)

Lemma rndQ_unit r : (0 <= rndQ r)%Q /\ (rndQ r < 1)%Q.
Proof.
  destruct r as [n g]. unfold rndQ, Qle, Qlt. simpl.
  rewrite Z2Pos.id by lia. lia.
Qed.

(** X16. A sub-component whose [required] is 1 or more is always drawn;
    one whose [required] is negative or missing never is, and its default,
    or the empty string, is used; one whose [required] is 0 is still drawn
    when the draw is 0. *)
Theorem required_bounds (obj category sub : json) (s : store) (r : rnd) (t : list rnd) :
  jgetv obj category = Ret sub ->
  (forall q values,
      jget sub (js "required") = Ret (JNum q) -> (1 <= q)%Q ->
      jget sub (js "values") = Ret values ->
      partialPiece obj category s (r :: t) = getRandomNoRepeat values s t)
  /\ (forall q dflt,
        jget sub (js "required") = Ret (JNum q) -> (q < 0)%Q ->
        jget sub (js "default") = Ret dflt ->
        partialPiece obj category s (r :: t)
        = Ret (if nullish dflt then JStr [] else dflt, s, t))
  /\ (forall dflt,
        jget sub (js "required") = Ret JUndef ->
        jget sub (js "default") = Ret dflt ->
        partialPiece obj category s (r :: t)
        = Ret (if nullish dflt then JStr [] else dflt, s, t))
  /\ (forall values,
        jget sub (js "required") = Ret (JNum 0) ->
        jget sub (js "values") = Ret values ->
        partialPiece obj category s (draw 0 1 :: t) = getRandomNoRepeat values s t).
Proof.
  intros Hsub. destruct (rndQ_unit r) as [Hpos Hone].
  split_and!.
  - intros q values Hreq Hq Hvalues. unfold partialPiece.
    erewrite run_lift by exact Hsub. erewrite run_lift by exact Hreq.
    rewrite run_random.
    assert (geRandom (JNum q) r = Ret true) as Hwanted.
    { simpl. f_equal. apply Qle_bool_iff. apply Qlt_le_weak. by eapply Qlt_le_trans. }
    erewrite run_lift by exact Hwanted. cbv beta iota.
    by erewrite run_lift by exact Hvalues.
  - intros q dflt Hreq Hq Hdflt. unfold partialPiece.
    erewrite run_lift by exact Hsub. erewrite run_lift by exact Hreq.
    rewrite run_random.
    assert (geRandom (JNum q) r = Ret false) as Hwanted.
    { simpl. f_equal. destruct (Qle_bool (rndQ r) q) eqn:E; [|done].
      apply Qle_bool_iff in E. exfalso. apply (Qlt_irrefl 0).
      eapply Qle_lt_trans; [exact Hpos|]. by eapply Qle_lt_trans. }
    erewrite run_lift by exact Hwanted. cbv beta iota.
    by erewrite run_lift by exact Hdflt.
  - intros dflt Hreq Hdflt. unfold partialPiece.
    erewrite run_lift by exact Hsub. erewrite run_lift by exact Hreq.
    rewrite run_random.
    erewrite run_lift by reflexivity. cbv beta iota.
    by erewrite run_lift by exact Hdflt.
  - intros values Hreq Hvalues. unfold partialPiece.
    erewrite run_lift by exact Hsub. erewrite run_lift by exact Hreq.
    rewrite run_random.
    assert (geRandom (JNum 0) (draw 0 1) = Ret true) as Hwanted by reflexivity.
    erewrite run_lift by exact Hwanted. cbv beta iota.
    by erewrite run_lift by exact Hvalues.
Qed.

(** *** A number that the gender does not define *)

(** X17. A partial resolved with a preset number that its type does not
    define for the gender, and that no object inherits, throws a
    [TypeError] as soon as its structure has a sub-component; with an empty
    structure it returns the empty text. *)
Theorem missing_number_throws (data : json) (type g n : jsstring) (preset : Preset)
  (typeObj : json) (numbers : list (jsstring * json)) (category : json)
  (categories : list json) (s : store) (t : list rnd) :
  gender preset = JStr g ->
  number_ preset = JStr n ->
  jget data type = Ret typeObj ->
  jget typeObj g = Ret (JObj numbers) ->
  assoc n numbers = None ->
  inherited n = false ->
  (jget typeObj (js "structure") = Ret (JArr (category :: categories)) ->
   getPartial data (JStr type) preset s t = Throw TypeError)
  /\ (jget typeObj (js "structure") = Ret (JArr []) ->
      getPartial data (JStr type) preset s t
      = Ret ({| p_type := JStr type; p_text := JStr [];
                p_gender := JStr g; p_number := JStr n |}, s, t)).
Proof.
  intros Hg Hn Htype Hgender Hmissing Hown.
  split.
  - intros Hstructure. unfold getPartial. rewrite Hg, Hn. cbn [nullish].
    rewrite run_ret.
    erewrite run_lift by exact Htype.
    erewrite run_lift by exact Hgender.
    erewrite run_lift by reflexivity.
    rewrite run_ret.
    erewrite run_lift by (unfold jgetv; simpl; by rewrite Hmissing, Hown).
    erewrite run_lift by exact Hstructure.
    erewrite run_lift by reflexivity.
    done.
  - intros Hstructure. unfold getPartial. rewrite Hg, Hn. cbn [nullish].
    rewrite run_ret.
    erewrite run_lift by exact Htype.
    erewrite run_lift by exact Hgender.
    erewrite run_lift by reflexivity.
    rewrite run_ret.
    erewrite run_lift by (unfold jgetv; simpl; by rewrite Hmissing, Hown).
    erewrite run_lift by exact Hstructure.
    erewrite run_lift by reflexivity.
    done.
Qed.

End Post.

(** X14 on one list item, with a rule that finds nothing to replace. *)
Lemma letter_figure_counts_markup_witness :
  setupContent (H := asciiHost) townStore townWords (settingsOf 1 Lists) cleared
    [draw 0 5; draw 0 6]
  = Ret (js "<li>Howdy stetson</li>", hatsAfter [0], [])
  /\ fixLigatures (H := asciiHost) [(js "oe", [339%N])] (js "<li>Howdy stetson</li>")
     = Ret (js "<li>Howdy stetson</li>")
  /\ exists units,
       length units = 1
       /\ chain (unitOf (H := asciiHost) townStore townWords Lists) cleared
            [draw 0 5; draw 0 6] units (hatsAfter [0]) []
       /\ js "<li>Howdy stetson</li>" = concat (wrap Lists <$> units)
       /\ setup (H := asciiHost) townStore [(js "oe", [339%N])] townWords
            (settingsOf 1 Lists) cleared [draw 0 5; draw 0 6]
          = Ret ((article (js "<li>Howdy stetson</li>"),
                  summaryLine (H := asciiHost) (settingsOf 1 Lists)
                    (length (splitWs (js "<li>Howdy stetson</li>")))
                    (sum_list (countAsciiLetters <$> units) + markupLetters Lists * 1)),
                 hatsAfter [0], []).
Proof.
  assert (Hrun : setupContent (H := asciiHost) townStore townWords (settingsOf 1 Lists) cleared
                   [draw 0 5; draw 0 6]
                 = Ret (js "<li>Howdy stetson</li>", hatsAfter [0], [])) by (by vm_compute).
  assert (Hfixed : fixLigatures (H := asciiHost) [(js "oe", [339%N])]
                     (js "<li>Howdy stetson</li>")
                   = Ret (js "<li>Howdy stetson</li>")) by (by vm_compute).
  split; [exact Hrun|]. split; [exact Hfixed|].
  exact (letter_figure_counts_markup (H := asciiHost) townStore [(js "oe", [339%N])]
           townWords (settingsOf 1 Lists) 1 cleared _ _ _ _ eq_refl Hrun Hfixed).
Defined.

(** X16 on the item of a cowboy. *)
Lemma required_bounds_witness :
  jgetv (H := asciiHost) (obj [("item", slot ["cowboy"])]%string) (JStr (js "item"))
  = Ret (slot ["cowboy"]%string)
  /\ partialPiece (H := asciiHost) (obj [("item", slot ["cowboy"])]%string) (JStr (js "item"))
       cleared [draw 1 2; draw 0 1]
     = getRandomNoRepeat (words ["cowboy"]%string) cleared [draw 0 1].
Proof.
  assert (Hsub : jgetv (H := asciiHost) (obj [("item", slot ["cowboy"])]%string)
                   (JStr (js "item")) = Ret (slot ["cowboy"]%string)) by (by vm_compute).
  split; [exact Hsub|].
  destruct (required_bounds (H := asciiHost) _ _ _ cleared (draw 1 2) [draw 0 1] Hsub)
    as (Halways & _).
  apply (Halways 1%Q); [by vm_compute|done|by vm_compute].
Defined.

(** X17 on a lady in the plural, which the town store does not define. *)
Lemma missing_number_throws_witness :
  jget townStore (js "persons") = Ret personsType
  /\ getPartial (H := asciiHost) townStore (JStr (js "persons"))
       {| gender := JStr (js "f"); number_ := JStr (js "plural") |} cleared [draw 0 1]
     = Throw TypeError.
Proof.
  assert (Htype : jget townStore (js "persons") = Ret personsType) by (by vm_compute).
  split; [exact Htype|].
  destruct (missing_number_throws (H := asciiHost) townStore (js "persons") (js "f")
              (js "plural") {| gender := JStr (js "f"); number_ := JStr (js "plural") |}
              personsType ladiesNumbers (JStr (js "item")) [] cleared [draw 0 1]
              eq_refl eq_refl Htype) as [Hthrows _];
    [by vm_compute|by vm_compute|by vm_compute|].
  apply Hthrows. by vm_compute.
Defined.
